(** * Transcription orchestration pipeline: a shallow embedding

    The two pipeline variants of the repository are embedded side by side:
    - [App]    : streamlit_compare_cloud_app.py (the full variant);
    - [AppAlt] : the near-duplicate variant whose file name carries a
                 full-width underscore.

    Python [str] values are sequences of Unicode code points; the external
    collaborators (ffprobe, ffmpeg, pydub, the two remote services) are
    oracles gathered in a [World] record, and an exception raised by one of
    them is an explicit [Raise] outcome. *)

From Stdlib Require Import ZArith NArith QArith Qround Lia Lqa List Bool.
From Stdlib Require Import Strings.String Strings.Ascii Sorting.Sorted.
From stdpp Require Import gmap.
Import ListNotations.

Local Open Scope Z_scope.

(** ** Python strings *)

Module Py.

(** A character is a Unicode code point, a [str] the list of its code
    points: [len], [in], [set] and slicing all count code points. *)
Definition char := N.
Definition str := list char.

(** Source literals are written as UTF-8 string literals and decoded. *)
Fixpoint utf8_decode (bs : list N) : str :=
  match bs with
  | [] => []
  | b0 :: t0 =>
    if (b0 <? 0x80)%N then b0 :: utf8_decode t0 else
    match t0 with
    | [] => [b0]
    | b1 :: t1 =>
      if (b0 <? 0xE0)%N
      then ((b0 mod 0x20) * 0x40 + b1 mod 0x40)%N :: utf8_decode t1 else
      match t1 with
      | [] => [b0; b1]
      | b2 :: t2 =>
        if (b0 <? 0xF0)%N
        then ((b0 mod 0x10) * 0x1000 + (b1 mod 0x40) * 0x40 + b2 mod 0x40)%N
             :: utf8_decode t2 else
        match t2 with
        | [] => [b0; b1; b2]
        | b3 :: t3 =>
          ((b0 mod 0x08) * 0x40000 + (b1 mod 0x40) * 0x1000
           + (b2 mod 0x40) * 0x40 + b3 mod 0x40)%N :: utf8_decode t3
        end
      end
    end
  end.

Definition lit (s : string) : str :=
  utf8_decode (List.map N_of_ascii (list_ascii_of_string s)).

Arguments lit : simpl never.

Definition char_eqb (a b : char) : bool := N.eqb a b.

(** [s.startswith(p)] *)
Fixpoint startswith (p s : str) : bool :=
  match p, s with
  | [], _ => true
  | _ :: _, [] => false
  | a :: p', b :: s' => char_eqb a b && startswith p' s'
  end.

(** [p in s] for strings: substring search. *)
Fixpoint contains (p s : str) : bool :=
  startswith p s ||
  match s with
  | [] => false
  | _ :: s' => contains p s'
  end.

(** [str.lower()].  Only the code points whose lower case contains an
    ASCII letter are mapped: A-Z, the Kelvin sign U+212A (to k) and the
    dotted capital I U+0130 (to i followed by the combining dot U+0307).
    Every other cased code point lowercases to code points outside ASCII
    and is left as it is; the callers only search the result for ASCII
    needles ("quota", "invalid", "api key", ...), and a match consists of
    ASCII code points only, so those tests agree with Python's. *)
Definition lower_char (c : char) : str :=
  if ((0x41 <=? c) && (c <=? 0x5A))%N then [(c + 0x20)%N]
  else if (c =? 0x212A)%N then [0x6B%N]
  else if (c =? 0x130)%N then [0x69%N; 0x307%N]
  else [c].
Definition lower (s : str) : str := flat_map lower_char s.

(** [str.isspace()] on one code point (Unicode White_Space plus the four
    information separators, as CPython has it). *)
Definition isspace (c : char) : bool :=
  (((0x09 <=? c) && (c <=? 0x0D)) || ((0x1C <=? c) && (c <=? 0x20))
   || (c =? 0x85) || (c =? 0xA0) || (c =? 0x1680)
   || ((0x2000 <=? c) && (c <=? 0x200A))
   || (c =? 0x2028) || (c =? 0x2029) || (c =? 0x202F) || (c =? 0x205F)
   || (c =? 0x3000))%N.

Fixpoint lstrip (s : str) : str :=
  match s with
  | [] => []
  | c :: s' => if isspace c then lstrip s' else s
  end.

Definition rstrip (s : str) : str := rev (lstrip (rev s)).

(** [s.strip()] *)
Definition strip (s : str) : str := rstrip (lstrip s).

(** Truthiness of a string: [if s] / [not s]. *)
Definition truthy (s : str) : bool :=
  match s with [] => false | _ :: _ => true end.

Definition str_eqb (a b : str) : bool :=
  if decide (a = b) then true else false.

(** ["".join(parts)] *)
Definition join0 (parts : list str) : str := List.concat parts.

(** [s[:n]] *)
Definition prefix (n : nat) (s : str) : str := firstn n s.

(** [str(n)] for a non-negative integer. *)
Fixpoint digits (d : Decimal.uint) : str :=
  match d with
  | Decimal.Nil => []
  | Decimal.D0 d' => 0x30%N :: digits d'
  | Decimal.D1 d' => 0x31%N :: digits d'
  | Decimal.D2 d' => 0x32%N :: digits d'
  | Decimal.D3 d' => 0x33%N :: digits d'
  | Decimal.D4 d' => 0x34%N :: digits d'
  | Decimal.D5 d' => 0x35%N :: digits d'
  | Decimal.D6 d' => 0x36%N :: digits d'
  | Decimal.D7 d' => 0x37%N :: digits d'
  | Decimal.D8 d' => 0x38%N :: digits d'
  | Decimal.D9 d' => 0x39%N :: digits d'
  end.

Definition str_of_nat (n : nat) : str := digits (Nat.to_uint n).

(** [range(0, stop, step)]: CPython computes the length once and then
    yields [i * step]; a zero step raises [ValueError], a negative step
    over a non-negative span yields nothing. *)
Definition range_len (stop step : Z) : nat :=
  if 0 <? step then Z.to_nat ((stop + step - 1) / step) else 0%nat.

Definition range0 (stop step : Z) : option (list Z) :=
  if step =? 0 then None
  else Some (List.map (fun k => Z.of_nat k * step) (seq 0 (range_len stop step))).

(** Outcome of a call that may raise: the value returned, or the text
    [str(e)] of the exception raised. *)
Inductive res (A : Type) : Type :=
| Return (a : A)
| Raise (msg : str).
Arguments Return {A} a.
Arguments Raise {A} msg.

End Py.

Import Py.

(** Sequencing of calls that may raise: the first exception ends the
    block. *)
#[global] Instance res_bind : MBind res := fun A B k c =>
  match c with
  | Return a => k a
  | Raise msg => Raise msg
  end.

#[global] Instance res_ret : MRet res := fun A a => Return a.

(** [a / b] on numbers: [ZeroDivisionError] when the divisor is zero.
    Durations and ratios are exact rationals here; the source computes the
    same quotients in binary floating point, where a product such as
    [i * (d / n)] is rounded and its truncation [int(...)] can be one
    second away from the exact one (and where [inf] and [nan] exist, which
    [int] refuses).  Statements about offsets are statements about the
    exact quotients. *)
Definition truediv (a b : Q) : res Q :=
  if Qeq_bool b 0 then Raise (lit "division by zero") else Return (a / b)%Q.

(** [int(x)] on a number: truncation toward zero. *)
Definition py_int (x : Q) : Z := Z.quot (Qnum x) (Zpos (Qden x)).

(** [str(n)] for an integer. *)
Definition str_of_Z (n : Z) : str :=
  match n with
  | Z0 => lit "0"
  | Zpos p => str_of_nat (Pos.to_nat p)
  | Zneg p => lit "-" ++ str_of_nat (Pos.to_nat p)
  end.

(** [s * n] *)
Definition repeat_str (s : str) (n : nat) : str := List.concat (repeat s n).

(** [f"{s:<n}"] *)
Definition ljust (n : nat) (s : str) : str :=
  s ++ repeat 0x20%N (n - List.length s).

(** ["%02d" % n] for [0 <= n]. *)
Definition pad2 (n : Z) : str :=
  if n <? 10 then lit "0" ++ str_of_Z n else str_of_Z n.

(** [timedelta(seconds=n)] for an integer [n], kept as its number of
    seconds.  The days of the normalized value must fit a C int and have
    a magnitude of at most 999999999; otherwise the constructor raises
    [OverflowError] (CPython's _datetimemodule.c). *)
Definition MAX_DELTA_DAYS : Z := 999999999.

Definition timedelta (seconds : Z) : res Z :=
  let days := seconds / 86400 in
  if (days <? - 2147483648) || (2147483647 <? days)
  then Raise (lit "Python int too large to convert to C int")
  else if (days <? - MAX_DELTA_DAYS) || (MAX_DELTA_DAYS <? days)
  then Raise (lit "days=" ++ str_of_Z days
              ++ lit "; must have magnitude <= 999999999")
  else Return seconds.

(** [str(delta)] for a [timedelta] of [n] whole seconds. *)
Definition str_of_timedelta (n : Z) : str :=
  let days := n / 86400 in
  let secs := n mod 86400 in
  let hh := secs / 3600 in
  let mm := (secs / 60) mod 60 in
  let ss := secs mod 60 in
  let s := str_of_Z hh ++ lit ":" ++ pad2 mm ++ lit ":" ++ pad2 ss in
  if days =? 0 then s
  else str_of_Z days ++ lit " day"
       ++ (if Z.abs days =? 1 then [] else lit "s") ++ lit ", " ++ s.

(** [format_duration]: [str(timedelta(seconds=int(seconds)))]. *)
Definition format_duration (seconds : Q) : res str :=
  delta ← timedelta (py_int seconds);
  Return (str_of_timedelta delta).

(** [datetime.min] and [datetime.max] in whole seconds counted from
    1970-01-01 00:00:00: 0001-01-01 00:00:00 and 9999-12-31 23:59:59. *)
Definition datetime_min : Z := -62135596800.
Definition datetime_max : Z := 253402300799.

(** [dt + delta] for a [datetime] and a [timedelta] of whole seconds:
    [OverflowError] when the sum leaves the range of [datetime]. *)
Definition datetime_add (dt delta : Z) : res Z :=
  let sum := dt + delta in
  if (sum <? datetime_min) || (datetime_max <? sum)
  then Raise (lit "date value out of range")
  else Return sum.

(** ["\n"] *)
Definition nl : str := [0x0A%N].

(** The sentinel shared by both variants and both backends. *)
Definition NO_CONTENT : str := lit "[無法辨識內容]".

(** ** Data shared by the two variants *)

(** One entry of [stt_records] / [gemini_records]: the dict with keys
    'filename', 'datetime', 'duration_sec', 'transcript'.  A [datetime] is
    kept as its whole seconds counted from 1970-01-01 00:00:00 (the lines
    of the reports only show whole seconds); a Python [datetime] lies
    between [datetime_min] and [datetime_max].  A duration is the finite
    number that ffprobe or pydub reported. *)
Record record := mk_record {
  filename : str;
  datetime : Z;
  duration_sec : Q;
  transcript : str
}.

(** A slice [audio_segment[i:j]] of an audio of [len_ms] milliseconds, as
    pydub clips it: both bounds are cut at the end of the audio. *)
Record chunk := mk_chunk {
  start_ms : Z;
  duration_ms : Z
}.

Definition slice (len_ms i j : Z) : chunk :=
  {| start_ms := Z.min i len_ms;
     duration_ms := Z.min j len_ms - Z.min i len_ms |}.

(** The splitting loop, identical in the two variants:
    [for i in range(0, len(audio_segment), chunk_duration_ms):
         chunk = audio_segment[i:i + chunk_duration_ms]]. *)
Definition split_chunks (len_ms chunk_duration_ms : Z) : res (list chunk) :=
  match range0 len_ms chunk_duration_ms with
  | None => Raise (lit "range() arg 3 must not be zero")
  | Some starts =>
    Return (List.map (fun i => slice len_ms i (i + chunk_duration_ms)) starts)
  end.

(** What the pipeline can hand to the recognizer: the bytes of a whole file
    or the exported bytes of one chunk of it. *)
Inductive target_format :=
| WAV
| M4A
| OtherFormat (name : str).

Inductive path :=
| Uploaded
| Converted (fmt : target_format).

Inductive payload :=
| WholeFile (p : path)
| ChunkOf (p : path) (c : chunk).

(** ** The full variant: streamlit_compare_cloud_app.py *)

Module App.

(** *** External collaborators *)

Record stream_info := mk_stream {
  codec_name : str;      (* [audio_stream.get('codec_name', '')] *)
  sample_rate : Z        (* [int(audio_stream.get('sample_rate', 0))] *)
}.

(** What [subprocess.run(['ffmpeg', ...], timeout=120)] can do. *)
Inductive ffmpeg_outcome :=
| Exited (returncode : Z) (stderr : str)
| TimeoutExpired
| Crashed (msg : str).

(** Everything outside the process, as one uploaded file meets it.
    [Raise] is an exception of the call, with its text. *)
Record World := mk_world {
  (* ffprobe -show_streams, json.loads and the stream fields, in
     check_audio_quality *)
  ffprobe_streams : res (list stream_info);
  (* os.path.exists, in get_audio_info *)
  file_exists : bool;
  (* ffprobe -show_format in get_audio_info: the return code and the
     parsed [float(... .get('duration', 0))] *)
  ffprobe_format : res (Z * res Q);
  (* the ffmpeg run of convert_audio_to_standard_format *)
  ffmpeg : target_format -> ffmpeg_outcome;
  (* service_account.Credentials..., speech.SpeechClient(...) and the
     RecognitionConfig *)
  speech_client : res unit;
  (* len(AudioSegment.from_file(p)), in milliseconds *)
  from_file : path -> res Z;
  (* os.path.getsize(p), in bytes; reading the file afterwards is folded
     into it *)
  getsize : path -> res Z;
  (* len(chunk_bytes) after chunk.export(...) *)
  export : path -> chunk -> res Z;
  (* client.recognize(...): the first alternative's transcript of every
     result *)
  recognize : payload -> res (list str);
  (* genai.configure and GenerativeModel(...) *)
  genai_model : res unit;
  (* model.generate_content(...) and response.text: [None] when the
     response object itself is None, [Some text] with an empty [text] when
     response.text is empty or None *)
  generate_content : path -> res (option str);
  (* the try block of extract_datetime_from_filename: the stem has two
     '_'-separated parts that strptime accepts; the datetime it gives,
     between datetime_min and datetime_max *)
  strptime_stem : option Z;
  (* datetime.now(), between datetime_min and datetime_max *)
  now : Z;
  (* f"{x:.1f}" *)
  format_1f : Q -> str
}.

(** *** Tool functions *)

Inductive quality_warning :=
| CompressedCodec            (* "⚠️ 使用壓縮格式（ADPCM），辨識率可能較低" *)
| LowSampleRate (rate : Z).  (* f"⚠️ 取樣率偏低（{sample_rate} Hz），..." *)

(** [needs_conversion] is [None], [False] or [True]. *)
Definition check_audio_quality (w : World)
  : option bool * list quality_warning :=
  match ffprobe_streams w with
  | Raise _ => (Some false, [])
  | Return [] => (None, [])
  | Return (audio_stream :: _) =>
    let codec := codec_name audio_stream in
    let rate := sample_rate audio_stream in
    let adpcm := str_eqb codec (lit "adpcm_ima_wav") in
    let low := rate <? 16000 in
    (Some (adpcm || low),
     (if adpcm then [CompressedCodec] else [])
     ++ (if low then [LowSampleRate rate] else []))
  end.

(** [if needs_conversion:] *)
Definition is_true (b : option bool) : bool :=
  match b with Some true => true | _ => false end.

Definition upper_name (fmt : target_format) : str :=
  match fmt with
  | WAV => lit "WAV"
  | M4A => lit "M4A"
  | OtherFormat name => name
  end.

Definition convert_audio_to_standard_format
    (w : World) (fmt : target_format) : bool * str :=
  match fmt with
  | OtherFormat name => (false, lit "不支援的格式：" ++ name)
  | _ =>
    match ffmpeg w fmt with
    | Exited returncode stderr =>
      if returncode =? 0
      then (true, lit "已轉換為標準 " ++ upper_name fmt ++ lit " 格式")
      else (false, lit "轉換失敗：" ++ prefix 200 stderr)
    | TimeoutExpired => (false, lit "轉換超時")
    | Crashed msg => (false, lit "轉換錯誤：" ++ prefix 200 msg)
    end
  end.

(** The duration in seconds, or 0 when it cannot be read (the messages it
    shows on the way are left out). *)
Definition get_audio_info (w : World) : Q :=
  if negb (file_exists w) then 0%Q else
  match getsize w Uploaded with
  | Raise _ => 0%Q
  | Return file_size =>
    if file_size =? 0 then 0%Q else
    match ffprobe_format w with
    | Raise _ => 0%Q
    | Return (returncode, duration) =>
      if negb (returncode =? 0) then 0%Q else
      match duration with
      | Raise _ => 0%Q
      | Return d => d
      end
    end
  end.

Definition extract_datetime_from_filename (w : World) : Z :=
  match strptime_stem w with
  | Some dt => dt
  | None => now w
  end.

(** *** Recognizer path *)

(** [max_size_mb = 8]; [len(b) / (1024 * 1024) > 8] holds exactly when
    [len(b)] exceeds this many bytes. *)
Definition max_size_bytes : Z := 8 * (1024 * 1024).

Definition chunk_too_large (idx : nat) : str :=
  lit "[第" ++ str_of_nat (idx + 1) ++ lit "段過大，跳過]".

Definition chunk_quota (idx : nat) : str :=
  lit "[第" ++ str_of_nat (idx + 1) ++ lit "段: 配額不足]".

Definition chunk_failed (idx : nat) : str :=
  lit "[第" ++ str_of_nat (idx + 1) ++ lit "段辨識失敗]".

(** The [except Exception as chunk_error] handler of the chunk loop. *)
Definition chunk_except (idx : nat) (error_msg : str) : str :=
  if contains (lit "quota") (lower error_msg)
  then chunk_quota idx
  else chunk_failed idx.

(** One iteration of [for idx, chunk in enumerate(chunks)]: the string
    appended to [transcripts]. *)
Definition recognize_chunk
    (w : World) (working_path : path) (idx : nat) (c : chunk) : str :=
  let attempt : res str :=
    chunk_bytes_len ← export w working_path c;
    if max_size_bytes <? chunk_bytes_len
    then Return (chunk_too_large idx)
    else
      results ← recognize w (ChunkOf working_path c);
      let chunk_transcript := join0 results in
      Return (if truthy chunk_transcript then chunk_transcript else [])
  in
  match attempt with
  | Return piece => piece
  | Raise error_msg => chunk_except idx error_msg
  end.

Fixpoint recognize_chunks
    (w : World) (working_path : path) (idx : nat) (chunks : list chunk)
  : list str :=
  match chunks with
  | [] => []
  | c :: rest =>
    recognize_chunk w working_path idx c
    :: recognize_chunks w working_path (S idx) rest
  end.

(** The merge after the loop. *)
Definition merge_transcripts (transcripts : list str) : str :=
  let full_transcript := join0 transcripts in
  if negb (truthy full_transcript) || str_eqb (strip full_transcript) []
  then NO_CONTENT
  else full_transcript.

(** The outer [except Exception as e] handler. *)
Definition stt_except (error_msg : str) : str :=
  let l := lower error_msg in
  if contains (lit "quota") l
  then lit "[STT 錯誤: API 配額不足，請稍後再試]"
  else if contains (lit "invalid") l
  then lit "[STT 錯誤: 音訊格式無效]"
  else if contains (lit "duration limit") l || contains (lit "too long") l
  then lit "[STT 錯誤: 音訊過長，請調整切分設定]"
  else lit "[STT 錯誤: " ++ prefix 100 error_msg ++ lit "]".

(** Steps 1 and 2: the file the recognizer path goes on with. *)
Definition stt_working_path (w : World) : path :=
  let '(needs_conversion, _) := check_audio_quality w in
  if is_true needs_conversion then
    let '(success, _) := convert_audio_to_standard_format w WAV in
    if success then Converted WAV else Uploaded
  else Uploaded.

(** Steps 3 and 4 on a given working file.  [max_chunk_duration] is the
    slider's integer number of seconds, so [duration_seconds <=
    max_chunk_duration] is [len_ms <= 1000 * max_chunk_duration]. *)
Definition stt_recognize
    (w : World) (working_path : path) (max_chunk_duration : Z) : res str :=
  speech_client w;;
  len_ms ← from_file w working_path;
  file_size ← getsize w working_path;
  if (len_ms <=? 1000 * max_chunk_duration) && (file_size <=? max_size_bytes)
  then
    results ← recognize w (WholeFile working_path);
    let transcript := join0 results in
    Return (if truthy transcript then transcript else NO_CONTENT)
  else
    let chunk_duration_ms := max_chunk_duration * 1000 in
    chunks ← split_chunks len_ms chunk_duration_ms;
    Return (merge_transcripts (recognize_chunks w working_path 0 chunks)).

(** [transcribe_google_stt(audio_path, filename, max_chunk_duration)];
    [filename] is not used by the body. *)
Definition transcribe_google_stt (w : World) (max_chunk_duration : Z) : str :=
  match stt_recognize w (stt_working_path w) max_chunk_duration with
  | Return result => result
  | Raise error_msg => stt_except error_msg
  end.

(** *** Generative path *)

Definition gemini_limit_bytes : Z := 15 * (1024 * 1024).

(** The inner [except Exception as gen_error] handler. *)
Definition gemini_gen_except (error_str : str) : str :=
  let l := lower error_str in
  if contains (lit "quota") l || contains (lit "429") error_str
  then lit "[Gemini 錯誤: API 配額不足]"
  else if contains (lit "unsupported") l || contains (lit "invalid") l
  then lit "[Gemini 錯誤: 格式問題 - " ++ prefix 100 error_str ++ lit "]"
  else if contains (lit "safety") l
  then lit "[Gemini 錯誤: 內容被安全過濾器阻擋]"
  else lit "[Gemini 生成錯誤: " ++ prefix 120 error_str ++ lit "]".

(** The outer [except Exception as e] handler. *)
Definition gemini_except (error_msg : str) : str :=
  let l := lower error_msg in
  if contains (lit "api key") l || contains (lit "api_key") l
  then lit "[Gemini 錯誤: API Key 無效或未設定]"
  else if contains (lit "quota") l || contains (lit "429") error_msg
  then lit "[Gemini 錯誤: API 配額不足]"
  else if contains (lit "permission") l
  then lit "[Gemini 錯誤: API 權限不足]"
  else lit "[Gemini 錯誤: " ++ prefix 150 error_msg ++ lit "]".

Definition gemini_conversion_failed (message : str) : str :=
  lit "[Gemini 錯誤: 音訊轉換失敗 - " ++ message ++ lit "]".

Definition gemini_too_large (w : World) (file_size : Z) : str :=
  lit "[Gemini 錯誤: 轉換後檔案過大 ("
  ++ format_1f w (inject_Z file_size / inject_Z (1024 * 1024))%Q
  ++ lit "MB，限制 15MB)]".

(** Steps 3 to 5 on the converted file. *)
Definition gemini_generate (w : World) (working_path : path) : res str :=
  genai_model w;;
  file_size ← getsize w working_path;
  if gemini_limit_bytes <? file_size
  then Return (gemini_too_large w file_size)
  else
    match generate_content w working_path with
    | Return None => Return NO_CONTENT
    | Return (Some text) =>
      Return (if truthy text then strip text else NO_CONTENT)
    | Raise error_str => Return (gemini_gen_except error_str)
    end.

(** [transcribe_gemini(audio_path)] *)
Definition transcribe_gemini (w : World) : str :=
  let '(success, message) := convert_audio_to_standard_format w M4A in
  if negb success
  then gemini_conversion_failed message
  else
    match gemini_generate w (Converted M4A) with
    | Return result => result
    | Raise error_msg => gemini_except error_msg
    end.

(** *** Reports *)

(** A line of a report.  Lines whose f-string formats a [datetime] or a
    float keep the formatted value as data. *)
Inductive line :=
| Plain (s : str)
| GeneratedAt   (* f"生成時間：{datetime.now().strftime(...)}" *)
| Utterance (ts : Z) (spk : str) (dialogue : str)
    (* f"{ts.strftime('%Y-%m-%d'):<12} {ts.strftime('%H:%M:%S'):<12}
         {spk}: {dialogue}" *)
| AvgDiff (avg_diff : Q)          (* f"平均字元差異：{avg_diff:.1f} 字元/檔" *)
| Similarity (similarity_pct : Q). (* f"字元集相似度: {similarity_pct:.1f}%" *)

(** [records.sort(key=lambda x: x['datetime'])]: a stable sort. *)
Fixpoint insert_by_datetime (r : record) (sorted : list record) : list record :=
  match sorted with
  | [] => [r]
  | x :: rest =>
    if datetime r <=? datetime x then r :: sorted
    else x :: insert_by_datetime r rest
  end.

Fixpoint sort_by_datetime (records : list record) : list record :=
  match records with
  | [] => []
  | r :: rest => insert_by_datetime r (sort_by_datetime rest)
  end.

(** [re.split(r'[。！？\n]+', text)] *)
Definition is_terminal (c : char) : bool :=
  ((c =? 0x3002) || (c =? 0xFF01) || (c =? 0xFF1F) || (c =? 0x0A))%N.

Fixpoint re_split_from (cur_rev : str) (in_run : bool) (text : str) : list str :=
  match text with
  | [] => [rev cur_rev]
  | c :: rest =>
    if is_terminal c then
      if in_run then re_split_from cur_rev true rest
      else rev cur_rev :: re_split_from [] true rest
    else re_split_from (c :: cur_rev) false rest
  end.

Definition re_split (text : str) : list str := re_split_from [] false text.

(** The utterances of one record. *)
Definition split_dialogues (text : str) : list str :=
  let dialogues :=
    if startswith (lit "[") text then []
    else List.map strip (List.filter (fun s => truthy (strip s)) (re_split text)) in
  match dialogues with
  | [] => [text]
  | _ :: _ => dialogues
  end.

Definition speaker (speaker_toggle : bool) : str :=
  if speaker_toggle then lit "講者A" else lit "講者B".

(** [for i, dialogue in enumerate(dialogues)], threading
    [speaker_toggle]. *)
Fixpoint emit_dialogues
    (base_time : Z) (interval : Q) (i : nat) (dialogues : list str)
    (speaker_toggle : bool) : res (list line * bool) :=
  match dialogues with
  | [] => Return ([], speaker_toggle)
  | dialogue :: rest =>
    delta ← timedelta (py_int (inject_Z (Z.of_nat i) * interval)%Q);
    ts ← datetime_add base_time delta;
    let spk := speaker speaker_toggle in
    '(more, toggle') ←
      emit_dialogues base_time interval (S i) rest (negb speaker_toggle);
    Return (Utterance ts spk dialogue :: more, toggle')
  end.

Definition rule (c : string) (n : nat) : str := repeat_str (lit c) n.

(** The body of [for record in records]: the lines it appends and the
    toggle it leaves. *)
Definition emit_record (r : record) (speaker_toggle : bool)
  : res (list line * bool) :=
  let text := transcript r in
  let dialogues := split_dialogues text in
  let base_time := datetime r in
  interval ← truediv (duration_sec r)
                     (inject_Z (Z.of_nat (Nat.max (List.length dialogues) 1)));
  '(spoken, toggle') ←
    emit_dialogues base_time interval 0 dialogues speaker_toggle;
  duration_text ← format_duration (duration_sec r);
  Return (spoken
          ++ [Plain (nl ++ rule "─" 60);
              Plain (lit "[來源: " ++ filename r ++ lit " | 長度: "
                     ++ duration_text ++ lit "]");
              Plain (rule "─" 60 ++ nl)],
          toggle').

Fixpoint emit_records (records : list record) (speaker_toggle : bool)
  : res (list line) :=
  match records with
  | [] => Return []
  | r :: rest =>
    '(ls, toggle') ← emit_record r speaker_toggle;
    more ← emit_records rest toggle';
    Return (ls ++ more)
  end.

Definition sum_durations (records : list record) : Q :=
  fold_left (fun acc r => (acc + duration_sec r)%Q) records 0%Q.

(** [generate_merged_content(records)]: the lines joined by the final
    ["\n".join(lines)].  The caller's list is sorted in place. *)
Definition generate_merged_content (records : list record) : res (list line) :=
  let total_sec := sum_durations records in
  total_text ← format_duration total_sec;
  let header :=
    [Plain (rule "═" 60);
     Plain (lit "           無線電通訊完整記錄 - 合併轉譯檔");
     Plain (rule "═" 60);
     GeneratedAt;
     Plain (lit "總時長：" ++ total_text);
     Plain (lit "檔案數量：" ++ str_of_nat (List.length records) ++ lit " 個");
     Plain (rule "═" 60 ++ nl);
     Plain (ljust 12 (lit "日期") ++ lit " " ++ ljust 12 (lit "時間")
            ++ lit " " ++ lit "發話內容");
     Plain (rule "─" 60)] in
  body ← emit_records (sort_by_datetime records) true;
  Return (header ++ body
          ++ [Plain (rule "═" 60);
              Plain (lit "                        記錄結束");
              Plain (rule "═" 60)]).

(** [set(a) & set(b)] and the similarity line's value. *)
Definition char_set (text : str) : gset char := list_to_set text.

Definition similarity_pct (stt_text gemini_text : str) : res Q :=
  let common_chars := char_set stt_text ∩ char_set gemini_text in
  ratio ← truediv
    (inject_Z (Z.of_nat (size common_chars)))
    (inject_Z (Z.of_nat (Nat.max (Nat.max (size (char_set stt_text))
                                          (size (char_set gemini_text))) 1)));
  Return (ratio * 100)%Q.

(** [text.startswith('[') and '錯誤' in text] *)
Definition is_error (text : str) : bool :=
  startswith (lit "[") text && contains (lit "錯誤") text.

Definition BOTH_FAILED : line := Plain (lit "⚠️  兩者皆辨識失敗").
Definition STT_FAILED : line := Plain (lit "⚠️  Google STT 辨識失敗，Gemini 成功").
Definition GEMINI_FAILED : line := Plain (lit "⚠️  Gemini 辨識失敗，Google STT 成功").
Definition BOTH_OK : line := Plain (lit "✅ 兩者皆成功辨識").

(** The [if stt_error and gemini_error: ... elif ... else] chain. *)
Definition status_line (stt_text gemini_text : str) : line :=
  let stt_error := is_error stt_text in
  let gemini_error := is_error gemini_text in
  if stt_error && gemini_error then BOTH_FAILED
  else if stt_error then STT_FAILED
  else if gemini_error then GEMINI_FAILED
  else BOTH_OK.

Definition char_count (text : str) : str :=
  lit "(字元數: " ++ str_of_nat (List.length text) ++ lit ")".

Definition abs_diff (a b : nat) : nat := Z.to_nat (Z.abs (Z.of_nat a - Z.of_nat b)).

(** The body of [for i, (stt_rec, gemini_rec) in enumerate(zip(...), 1)]. *)
Definition compare_pair (i : nat) (stt_rec gemini_rec : record)
  : res (list line) :=
  let stt_text := transcript stt_rec in
  let gemini_text := transcript gemini_rec in
  duration_text ← format_duration (duration_sec stt_rec);
  pct ← similarity_pct stt_text gemini_text;
  Return
    [Plain (rule "=" 80);
     Plain (lit "檔案 " ++ str_of_nat i ++ lit ": " ++ filename stt_rec);
     Plain (lit "時長: " ++ duration_text);
     Plain (rule "=" 80);
     Plain [];
     Plain (lit "【Google STT 結果】");
     Plain (rule "─" 80);
     Plain stt_text;
     Plain (char_count stt_text);
     Plain [];
     Plain (lit "【Gemini 2.0 結果】");
     Plain (rule "─" 80);
     Plain gemini_text;
     Plain (char_count gemini_text);
     Plain [];
     Plain (lit "【差異分析】");
     Plain (rule "─" 80);
     Plain (lit "字元數差異: "
            ++ str_of_nat (abs_diff (List.length stt_text) (List.length gemini_text))
            ++ lit " 字元");
     Similarity pct;
     status_line stt_text gemini_text;
     Plain []].

(** [zip] stops at the shorter list. *)
Fixpoint compare_pairs (i : nat) (stt_records gemini_records : list record)
  : res (list line) :=
  match stt_records, gemini_records with
  | stt_rec :: stt_rest, gemini_rec :: gemini_rest =>
    ls ← compare_pair i stt_rec gemini_rec;
    more ← compare_pairs (S i) stt_rest gemini_rest;
    Return (ls ++ more)
  | _, _ => Return []
  end.

Definition total_chars (records : list record) : nat :=
  list_sum (List.map (fun r => List.length (transcript r)) records).

Definition NO_RECORDS : line := Plain (lit "⚠️  沒有可比較的記錄").

(** The title block of the comparison report. *)
Definition comparison_header (stt_records : list record) : list line :=
  [Plain (rule "═" 80);
   Plain (lit "           Google STT vs Gemini 2.0 - 轉譯結果比較報告");
   Plain (rule "═" 80);
   GeneratedAt;
   Plain (lit "檔案數量：" ++ str_of_nat (List.length stt_records) ++ lit " 個");
   Plain (rule "═" 80 ++ nl)].

(** [generate_comparison_report(stt_records, gemini_records)] *)
Definition generate_comparison_report (stt_records gemini_records : list record)
  : res (list line) :=
  let header := comparison_header stt_records in
  match stt_records, gemini_records with
  | [], _ | _, [] =>
    Return (header ++ [NO_RECORDS; Plain (rule "=" 80)])
  | _ :: _, _ :: _ =>
    let total_stt_chars := total_chars stt_records in
    let total_gemini_chars := total_chars gemini_records in
    let stats :=
      [Plain (lit "📊 整體統計");
       Plain (rule "─" 80);
       Plain (lit "Google STT 總字元數：" ++ str_of_nat total_stt_chars);
       Plain (lit "Gemini 總字元數：" ++ str_of_nat total_gemini_chars)] in
    avg ← (if (0 <? List.length stt_records)%nat then
             avg_diff ← truediv
               (inject_Z (Z.of_nat (abs_diff total_stt_chars total_gemini_chars)))
               (inject_Z (Z.of_nat (List.length stt_records)));
             Return [AvgDiff avg_diff]
           else Return []);
    pairs ← compare_pairs 1 stt_records gemini_records;
    Return (header ++ stats ++ avg ++ [Plain []] ++ pairs
            ++ [Plain (rule "=" 80);
                Plain (lit "                        比較報告結束");
                Plain (rule "=" 80)])
  end.

(** *** The upload loop *)

Record UploadedFile := mk_upload {
  name : str;
  world : World
}.

(** The two result containers, and what [st.error] has shown. *)
Record State := mk_state {
  stt_records : list record;
  gemini_records : list record;
  errors : list str
}.

Definition initial : State :=
  {| stt_records := []; gemini_records := []; errors := [] |}.

(** The radio button's three modes. *)
Definition STT_ONLY : str := lit "僅 Google STT".
Definition GEMINI_ONLY : str := lit "僅 Gemini".
Definition DUAL : str := lit "雙模式 (比較)".

Definition use_stt (mode : str) : bool :=
  contains (lit "Google STT") mode || contains (lit "雙模式") mode.

Definition use_gemini (mode : str) : bool :=
  contains (lit "Gemini") mode || contains (lit "雙模式") mode.

Definition unreadable (uploaded_file : UploadedFile) : str :=
  lit "無法讀取 " ++ name uploaded_file ++ lit " 的音訊資訊".

(** f"檔案 {uploaded_file.name} 處理失敗：{str(e)[:200]}" *)
Definition processing_failed (uploaded_file : UploadedFile) (e : str) : str :=
  lit "檔案 " ++ name uploaded_file ++ lit " 處理失敗：" ++ prefix 200 e.

(** One iteration of [for i, uploaded_file in enumerate(uploaded_files)]. *)
Definition process_file
    (mode : str) (chunk_duration : Z) (st : State) (uploaded_file : UploadedFile)
  : State :=
  let w := world uploaded_file in
  let duration := get_audio_info w in
  if Qeq_bool duration 0 then
    (* st.error(...); continue *)
    {| stt_records := stt_records st;
       gemini_records := gemini_records st;
       errors := errors st ++ [unreadable uploaded_file] |}
  else
    (* status_text.text(f"... {format_duration(duration_sec)})"), still
       inside the try *)
    match format_duration duration with
    | Raise e =>
      (* except Exception as e: st.error(...); continue *)
      {| stt_records := stt_records st;
         gemini_records := gemini_records st;
         errors := errors st ++ [processing_failed uploaded_file e] |}
    | Return _ =>
      let base_dt := extract_datetime_from_filename w in
      let entry (res : str) :=
        {| filename := name uploaded_file;
           datetime := base_dt;
           duration_sec := duration;
           transcript := res |} in
      {| stt_records :=
           if use_stt mode
           then stt_records st ++ [entry (transcribe_google_stt w chunk_duration)]
           else stt_records st;
         gemini_records :=
           if use_gemini mode
           then gemini_records st ++ [entry (transcribe_gemini w)]
           else gemini_records st;
         errors := errors st |}
    end.

Definition process_files
    (mode : str) (chunk_duration : Z) (uploaded_files : list UploadedFile)
  : State :=
  fold_left (process_file mode chunk_duration) uploaded_files initial.

(** *** The result tabs and the download archive *)

(** [t[:100] + "..." if len(t) > 100 else t] *)
Definition preview (text : str) : str :=
  if (100 <? List.length text)%nat then prefix 100 text ++ lit "..." else text.

(** One row of the comparison table. *)
Record comparison_row := mk_row {
  row_file : str;
  row_duration : str;
  row_stt : str;
  row_gemini : str
}.

(** [for i in range(len(stt_records))] with [stt_records[i]] and
    [gemini_records[i]]: an index past the end raises [IndexError]. *)
Fixpoint comparison_rows
    (indices : list nat) (stt_records gemini_records : list record)
  : res (list comparison_row) :=
  match indices with
  | [] => Return []
  | i :: rest =>
    match nth_error stt_records i, nth_error gemini_records i with
    | Some stt_rec, Some gemini_rec =>
      duration_text ← format_duration (duration_sec stt_rec);
      more ← comparison_rows rest stt_records gemini_records;
      Return ({| row_file := filename stt_rec;
                 row_duration := duration_text;
                 row_stt := preview (transcript stt_rec);
                 row_gemini := preview (transcript gemini_rec) |} :: more)
    | _, _ => Raise (lit "list index out of range")
    end
  end.

Definition comparison_data (stt_records gemini_records : list record)
  : res (list comparison_row) :=
  comparison_rows (seq 0 (List.length stt_records)) stt_records gemini_records.

(** What [zf.writestr(name, text)] stores. *)
Inductive zip_content :=
| MergedText (lines : list line)
| IndividualText (rec : record)
    (* f"檔案：{rec['filename']}\n內容：{rec['transcript']}" *)
| ReportText (lines : list line).

Definition zip_entry : Type := str * zip_content.

(** One backend's tab: the merged document, then one entry per record.
    [generate_merged_content] has sorted the list in place, so the records
    are gone through, and handed on, in that order. *)
Definition backend_entries
    (merged_name individual_dir : string) (records : list record)
  : res (list zip_entry * list record) :=
  merged_txt ← generate_merged_content records;
  let records := sort_by_datetime records in
  Return ((lit merged_name, MergedText merged_txt)
          :: List.map (fun rec =>
                         (lit individual_dir ++ filename rec ++ lit ".txt",
                          IndividualText rec))
                      records,
          records).

(** The comparison tab: [None] when it only warns that there is nothing
    to compare, otherwise the table and the text of the report.  The
    expanders shown between the two format the durations of the paired
    records once more, durations the table has formatted already. *)
Definition comparison_tab (stt_records gemini_records : list record)
  : res (option (list comparison_row * list line)) :=
  match stt_records, gemini_records with
  | [], _ | _, [] => Return None   (* st.warning(...) *)
  | _ :: _, _ :: _ =>
    rows ← comparison_data stt_records gemini_records;
    comparison_report ← generate_comparison_report stt_records gemini_records;
    Return (Some (rows, comparison_report))
  end.

(** The entries written to the archive after the upload loop. *)
Definition archive (mode : str) (stt_records gemini_records : list record)
  : res (list zip_entry) :=
  '(stt_entries, stt_records) ←
    (if use_stt mode
     then backend_entries "GoogleSTT_Merged.txt" "GoogleSTT_Individual/" stt_records
     else Return ([], stt_records));
  '(gemini_entries, gemini_records) ←
    (if use_gemini mode
     then backend_entries "Gemini_Merged.txt" "Gemini_Individual/" gemini_records
     else Return ([], gemini_records));
  comparison ←
    (if use_stt mode && use_gemini mode
     then comparison_tab stt_records gemini_records
     else Return None);
  Return (stt_entries ++ gemini_entries
          ++ match comparison with
             | Some (_, comparison_report) =>
               [(lit "Comparison_Report.txt", ReportText comparison_report)]
             | None => []
             end).

End App.

(** ** The near-duplicate variant (file name with a full-width underscore)

    It converts every upload to 16 kHz WAV in the upload loop and hands
    that file to both backends; the oracles are those of [App.World]. *)

Module AppAlt.

(** The inner [try]: a failed recognition appends the empty string. *)
Definition recognize_piece (w : App.World) (audio_path : path) (c : chunk) : str :=
  match App.recognize w (ChunkOf audio_path c) with
  | Return results => join0 results
  | Raise _ => []
  end.

(** The chunk loop; the export sits outside the inner [try]. *)
Fixpoint recognize_chunks (w : App.World) (audio_path : path) (chunks : list chunk)
  : res (list str) :=
  match chunks with
  | [] => Return []
  | c :: rest =>
    App.export w audio_path c;;
    let piece := recognize_piece w audio_path c in
    more ← recognize_chunks w audio_path rest;
    Return (piece :: more)
  end.

Definition merge_transcripts (transcripts : list str) : str :=
  let full_transcript := join0 transcripts in
  if truthy (strip full_transcript) then full_transcript else NO_CONTENT.

Definition stt_recognize
    (w : App.World) (audio_path : path) (max_chunk_duration : Z) : res str :=
  App.speech_client w;;
  len_ms ← App.from_file w audio_path;
  let chunk_duration_ms := max_chunk_duration * 1000 in
  chunks ← split_chunks len_ms chunk_duration_ms;
  transcripts ← recognize_chunks w audio_path chunks;
  Return (merge_transcripts transcripts).

(** [transcribe_google_stt(audio_path, filename, max_chunk_duration)] *)
Definition transcribe_google_stt
    (w : App.World) (audio_path : path) (max_chunk_duration : Z) : str :=
  match stt_recognize w audio_path max_chunk_duration with
  | Return result => result
  | Raise e => lit "[STT 錯誤: " ++ prefix 100 e ++ lit "]"
  end.

(** [transcribe_gemini(audio_path)] *)
Definition transcribe_gemini (w : App.World) (audio_path : path) : str :=
  let body : res str :=
    App.genai_model w;;
    App.getsize w audio_path;;
    response ← App.generate_content w audio_path;
    match response with
    | Some text => Return (if truthy text then strip text else NO_CONTENT)
    | None =>
      (* response.text on None: AttributeError, caught below *)
      Raise (lit "'NoneType' object has no attribute 'text'")
    end in
  match body with
  | Return result => result
  | Raise e =>
    if contains (lit "400") e
    then lit "[Gemini 錯誤: 格式不支援或檔案損毀]"
    else lit "[Gemini 錯誤: " ++ prefix 100 e ++ lit "]"
  end.

Definition conversion_failed (uploaded_file : App.UploadedFile) : str :=
  lit "轉檔失敗: " ++ App.name uploaded_file.

(** One iteration of the upload loop.  [subprocess.run(..., check=True)]
    raises [CalledProcessError] on a non-zero exit, which the loop catches;
    any other failure of the run is not caught and ends the script. *)
Definition process_file
    (mode : str) (chunk_duration : Z) (st : App.State)
    (uploaded_file : App.UploadedFile) : res App.State :=
  let w := App.world uploaded_file in
  match App.ffmpeg w WAV with
  | App.TimeoutExpired => Raise (lit "TimeoutExpired")
  | App.Crashed msg => Raise msg
  | App.Exited returncode _ =>
    if negb (returncode =? 0) then
      (* st.error(...); continue *)
      Return {| App.stt_records := App.stt_records st;
                App.gemini_records := App.gemini_records st;
                App.errors := App.errors st ++ [conversion_failed uploaded_file] |}
    else
      let wav_path := Converted WAV in
      let duration :=
        match App.from_file w wav_path with
        | Return len_ms => (inject_Z len_ms / 1000)%Q
        | Raise _ => 0%Q
        end in
      let base_dt := App.extract_datetime_from_filename w in
      let entry (res : str) :=
        {| filename := App.name uploaded_file;
           datetime := base_dt;
           duration_sec := duration;
           transcript := res |} in
      Return
        {| App.stt_records :=
             if App.use_stt mode
             then App.stt_records st
                  ++ [entry (transcribe_google_stt w wav_path chunk_duration)]
             else App.stt_records st;
           App.gemini_records :=
             if App.use_gemini mode
             then App.gemini_records st ++ [entry (transcribe_gemini w wav_path)]
             else App.gemini_records st;
           App.errors := App.errors st |}
  end.

Fixpoint process_from
    (mode : str) (chunk_duration : Z) (st : App.State)
    (uploaded_files : list App.UploadedFile) : res App.State :=
  match uploaded_files with
  | [] => Return st
  | f :: rest =>
    st' ← process_file mode chunk_duration st f;
    process_from mode chunk_duration st' rest
  end.

Definition process_files
    (mode : str) (chunk_duration : Z) (uploaded_files : list App.UploadedFile)
  : res App.State :=
  process_from mode chunk_duration App.initial uploaded_files.

(** [generate_merged_content(records)] of this variant: no sorting, no
    splitting into utterances. *)
Definition generate_merged_content (records : list record) : list App.line :=
  [App.Plain (App.rule "═" 60);
   App.GeneratedAt;
   App.Plain (App.rule "═" 60 ++ nl)]
  ++ flat_map (fun record =>
                 [App.Plain (lit "[" ++ filename record ++ lit "]");
                  App.Plain (transcript record);
                  App.Plain (App.rule "-" 30 ++ nl)])
              records.

(** [for stt, gem in zip(stt_records, gemini_records)] *)
Fixpoint report_pairs (stt_records gemini_records : list record) : list App.line :=
  match stt_records, gemini_records with
  | stt :: stt_rest, gem :: gem_rest =>
    [App.Plain (lit "檔案: " ++ filename stt);
     App.Plain (lit "Google STT: " ++ transcript stt);
     App.Plain (lit "Gemini    : " ++ transcript gem);
     App.Plain (App.rule "-" 40)]
    ++ report_pairs stt_rest gem_rest
  | _, _ => []
  end.

(** [generate_comparison_report(stt_records, gemini_records)] of this
    variant. *)
Definition generate_comparison_report (stt_records gemini_records : list record)
  : list App.line :=
  [App.Plain (lit "STT vs Gemini 比較報告"); App.Plain (App.rule "=" 40)]
  ++ report_pairs stt_records gemini_records.

End AppAlt.

(** ** Properties of chunk lists *)

(** The chunks tile the time line from [t] on: each starts where the one
    before ended and none is empty, so the start offsets increase strictly
    and there is neither a gap nor an overlap. *)
Fixpoint contiguous_from (t : Z) (chunks : list chunk) : Prop :=
  match chunks with
  | [] => True
  | c :: rest =>
    start_ms c = t /\ 0 < duration_ms c /\
    contiguous_from (t + duration_ms c) rest
  end.

Definition total_duration (chunks : list chunk) : Z :=
  fold_right Z.add 0 (List.map duration_ms chunks).

(** Every chunk but the last lasts exactly [w]; the last one at most [w]. *)
Fixpoint full_but_last (w : Z) (chunks : list chunk) : Prop :=
  match chunks with
  | [] => True
  | [c] => duration_ms c <= w
  | c :: (_ :: _) as rest => duration_ms c = w /\ full_but_last w rest
  end.

(** The windows that [split_chunks] cuts for the indices [a, a+1, ...]. *)
Definition windows (len_ms w : Z) (a m : nat) : list chunk :=
  List.map (fun i => slice len_ms i (i + w))
           (List.map (fun k => Z.of_nat k * w) (seq a m)).

(** ** Blank strings *)

Definition has_nonspace (s : str) : bool := existsb (fun c => negb (isspace c)) s.

(** ** Chunk outcomes in the full variant *)

Module AppSpec.
Import App.

(** The backend call for a chunk goes through and returns [results]. *)
Definition succeeds (w : World) (p : path) (c : chunk) (results : list str) : Prop :=
  exists n, export w p c = Return n /\ n <= max_size_bytes /\
            recognize w (ChunkOf p c) = Return results.

(** The backend call for a chunk raises [msg]. *)
Definition backend_fails (w : World) (p : path) (c : chunk) (msg : str) : Prop :=
  exists n, export w p c = Return n /\ n <= max_size_bytes /\
            recognize w (ChunkOf p c) = Raise msg.

(** A chunk has a [Failed] outcome: its export raised, its payload is over
    the ceiling, or the backend call raised. *)
Definition chunk_fails (w : World) (p : path) (c : chunk) : Prop :=
  (exists msg, export w p c = Raise msg) \/
  (exists n, export w p c = Return n /\ max_size_bytes < n) \/
  (exists msg, backend_fails w p c msg).

(** A bracketed marker carrying the 1-based position of chunk [idx]. *)
Definition marker_for (idx : nat) (s : str) : Prop :=
  exists kind, s = lit "[第" ++ str_of_nat (idx + 1) ++ kind ++ lit "]".

End AppSpec.

(** ** Sample worlds *)

Module Demo.

(** A 125-second upload, already 16 kHz PCM, whose second 50-second chunk
    runs into the quota while the two others are recognized. *)
Definition clip125 : App.World :=
  {| App.ffprobe_streams :=
       Return [ {| App.codec_name := lit "pcm_s16le"; App.sample_rate := 16000 |} ];
     App.file_exists := true;
     App.ffprobe_format := Return (0, Return 125%Q);
     App.ffmpeg := fun _ => App.Exited 0 [];
     App.speech_client := Return tt;
     App.from_file := fun _ => Return 125000;
     App.getsize := fun _ => Return 4000044;
     App.export := fun _ c => Return (32 * duration_ms c + 44);
     App.recognize := fun what =>
       match what with
       | ChunkOf _ c =>
         if start_ms c =? 0 then Return [lit "列車進站"]
         else if start_ms c =? 50000 then Raise (lit "429 Quota exceeded")
         else Return [lit "請注意"]
       | WholeFile _ => Return [lit "列車進站請注意"]
       end;
     App.genai_model := Return tt;
     App.generate_content := fun _ => Return (Some (lit "列車進站。請注意"));
     App.strptime_stem := Some 1700000000;
     App.now := 1800000000;
     App.format_1f := fun _ => lit "3.8" |}.

(** The same upload when every recognition call is refused. *)
Definition all_refused : App.World :=
  {| App.ffprobe_streams := App.ffprobe_streams clip125;
     App.file_exists := true;
     App.ffprobe_format := App.ffprobe_format clip125;
     App.ffmpeg := App.ffmpeg clip125;
     App.speech_client := Return tt;
     App.from_file := App.from_file clip125;
     App.getsize := App.getsize clip125;
     App.export := App.export clip125;
     App.recognize := fun _ => Raise (lit "503 service unavailable");
     App.genai_model := Return tt;
     App.generate_content := App.generate_content clip125;
     App.strptime_stem := App.strptime_stem clip125;
     App.now := App.now clip125;
     App.format_1f := App.format_1f clip125 |}.

(** A 5-second upload for which the recognizer returns a single blank. *)
Definition short_blank : App.World :=
  {| App.ffprobe_streams := App.ffprobe_streams clip125;
     App.file_exists := true;
     App.ffprobe_format := Return (0, Return 5%Q);
     App.ffmpeg := App.ffmpeg clip125;
     App.speech_client := Return tt;
     App.from_file := fun _ => Return 5000;
     App.getsize := fun _ => Return 160044;
     App.export := App.export clip125;
     App.recognize := fun _ => Return [lit " "];
     App.genai_model := Return tt;
     App.generate_content := App.generate_content clip125;
     App.strptime_stem := App.strptime_stem clip125;
     App.now := App.now clip125;
     App.format_1f := App.format_1f clip125 |}.

(** Records of two backends for the comparison report. *)
Definition stt_a : record :=
  mk_record (lit "a.wav") 1700000000 60 (lit "列車進站。請注意！").
Definition stt_b : record :=
  mk_record (lit "b.wav") 1700000100 60 NO_CONTENT.
Definition gemini_a : record :=
  mk_record (lit "a.wav") 1700000000 60 (lit "列車進站，請注意。").
Definition gemini_b : record :=
  mk_record (lit "b.wav") 1700000100 60 (lit "下一站台北車站").

(** An 8 kHz upload of 5 seconds that ffmpeg cannot convert; both
    backends would handle the upload itself. *)
Definition unconvertible : App.World :=
  {| App.ffprobe_streams :=
       Return [ {| App.codec_name := lit "pcm_s16le"; App.sample_rate := 8000 |} ];
     App.file_exists := true;
     App.ffprobe_format := Return (0, Return 5%Q);
     App.ffmpeg := fun _ => App.Exited 1 (lit "Invalid data found");
     App.speech_client := Return tt;
     App.from_file := fun _ => Return 5000;
     App.getsize := fun _ => Return 80044;
     App.export := App.export clip125;
     App.recognize := fun _ => Return [lit "列車進站"];
     App.genai_model := Return tt;
     App.generate_content := fun _ => Return (Some (lit "列車進站"));
     App.strptime_stem := App.strptime_stem clip125;
     App.now := App.now clip125;
     App.format_1f := App.format_1f clip125 |}.

(** An upload whose duration ffprobe cannot tell. *)
Definition no_duration : App.World :=
  {| App.ffprobe_streams := App.ffprobe_streams clip125;
     App.file_exists := true;
     App.ffprobe_format := Return (1, Raise (lit "no duration"));
     App.ffmpeg := App.ffmpeg clip125;
     App.speech_client := Return tt;
     App.from_file := App.from_file clip125;
     App.getsize := App.getsize clip125;
     App.export := App.export clip125;
     App.recognize := App.recognize clip125;
     App.genai_model := Return tt;
     App.generate_content := App.generate_content clip125;
     App.strptime_stem := App.strptime_stem clip125;
     App.now := App.now clip125;
     App.format_1f := App.format_1f clip125 |}.

Definition upload_a : App.UploadedFile :=
  App.mk_upload (lit "a.wav") clip125.
Definition upload_bad : App.UploadedFile :=
  App.mk_upload (lit "bad.wav") no_duration.
Definition upload_c : App.UploadedFile :=
  App.mk_upload (lit "c.wav") all_refused.

Definition ninety_seconds : record :=
  mk_record (lit "b.wav") 1700000100 90 (lit "A。B！C").

(** The 125-second upload when neither service accepts the credentials. *)
Definition no_credentials : App.World :=
  {| App.ffprobe_streams := App.ffprobe_streams clip125;
     App.file_exists := true;
     App.ffprobe_format := App.ffprobe_format clip125;
     App.ffmpeg := App.ffmpeg clip125;
     App.speech_client := Raise (lit "Invalid service account info");
     App.from_file := App.from_file clip125;
     App.getsize := App.getsize clip125;
     App.export := App.export clip125;
     App.recognize := App.recognize clip125;
     App.genai_model := Raise (lit "API key not valid");
     App.generate_content := App.generate_content clip125;
     App.strptime_stem := App.strptime_stem clip125;
     App.now := App.now clip125;
     App.format_1f := App.format_1f clip125 |}.

(** The 125-second upload on a machine without ffmpeg. *)
Definition no_ffmpeg : App.World :=
  {| App.ffprobe_streams := App.ffprobe_streams clip125;
     App.file_exists := true;
     App.ffprobe_format := App.ffprobe_format clip125;
     App.ffmpeg := fun _ => App.Crashed (lit "No such file or directory: 'ffmpeg'");
     App.speech_client := Return tt;
     App.from_file := App.from_file clip125;
     App.getsize := App.getsize clip125;
     App.export := App.export clip125;
     App.recognize := App.recognize clip125;
     App.genai_model := Return tt;
     App.generate_content := App.generate_content clip125;
     App.strptime_stem := App.strptime_stem clip125;
     App.now := App.now clip125;
     App.format_1f := App.format_1f clip125 |}.

Definition upload_d : App.UploadedFile :=
  App.mk_upload (lit "d.wav") no_ffmpeg.
Definition upload_e : App.UploadedFile :=
  App.mk_upload (lit "e.wav") unconvertible.

(** An 8 kHz upload of 5 seconds that ffmpeg converts. *)
Definition short_rate8k : App.World :=
  {| App.ffprobe_streams := App.ffprobe_streams unconvertible;
     App.file_exists := true;
     App.ffprobe_format := App.ffprobe_format unconvertible;
     App.ffmpeg := fun _ => App.Exited 0 [];
     App.speech_client := Return tt;
     App.from_file := App.from_file unconvertible;
     App.getsize := App.getsize unconvertible;
     App.export := App.export clip125;
     App.recognize := App.recognize unconvertible;
     App.genai_model := Return tt;
     App.generate_content := App.generate_content unconvertible;
     App.strptime_stem := App.strptime_stem clip125;
     App.now := App.now clip125;
     App.format_1f := App.format_1f clip125 |}.

End Demo.

(** ** Aligned records *)

(** Two records stand for the same upload. *)
Definition aligned (s g : record) : Prop :=
  filename s = filename g /\ datetime s = datetime g /\
  (duration_sec s == duration_sec g)%Q.

(** The classification line of one file's block in the comparison report. *)
Definition classification (block : list App.line) : App.line :=
  nth 19 block (App.Plain []).

(** ** The upload loop, file by file *)

(** A duration that [format_duration] accepts. *)
Definition formattable (seconds : Q) : bool :=
  match format_duration seconds with
  | Return _ => true
  | Raise _ => false
  end.

(** The upload gets past the [try] of the loop: its duration probe gives a
    non-zero duration, and one that [format_duration] accepts. *)
Definition readable (u : App.UploadedFile) : bool :=
  negb (Qeq_bool (App.get_audio_info (App.world u)) 0)
  && formattable (App.get_audio_info (App.world u)).

(** The message that the loop shows for an upload it skips. *)
Definition skip_message (u : App.UploadedFile) : str :=
  if Qeq_bool (App.get_audio_info (App.world u)) 0 then App.unreadable u
  else match format_duration (App.get_audio_info (App.world u)) with
       | Raise e => App.processing_failed u e
       | Return _ => []
       end.

(** The record and its utterances stay within the calendar of [datetime]:
    the record's date is a [datetime], and so is the date one duration
    later. *)
Definition within_calendar (r : record) : Prop :=
  datetime_min <= datetime r /\ (0 <= duration_sec r)%Q /\
  (inject_Z (datetime r) + duration_sec r <= inject_Z datetime_max)%Q.

(** The utterance lines of a record when no date overflows: what
    [emit_dialogues] returns then. *)
Fixpoint utterances
    (base_time : Z) (interval : Q) (i : nat) (dialogues : list str)
    (speaker_toggle : bool) : list App.line :=
  match dialogues with
  | [] => []
  | dialogue :: rest =>
    App.Utterance (base_time + py_int (inject_Z (Z.of_nat i) * interval)%Q)
                  (App.speaker speaker_toggle) dialogue
    :: utterances base_time interval (S i) rest (negb speaker_toggle)
  end.

(** The records that one iteration appends for a readable upload. *)
Definition stt_entry (chunk_duration : Z) (u : App.UploadedFile) : record :=
  {| filename := App.name u;
     datetime := App.extract_datetime_from_filename (App.world u);
     duration_sec := App.get_audio_info (App.world u);
     transcript := App.transcribe_google_stt (App.world u) chunk_duration |}.

Definition gemini_entry (u : App.UploadedFile) : record :=
  {| filename := App.name u;
     datetime := App.extract_datetime_from_filename (App.world u);
     duration_sec := App.get_audio_info (App.world u);
     transcript := App.transcribe_gemini (App.world u) |}.

(** ** Utterances of the merged document *)

(** The speaker labels of the utterance lines, in order. *)
Definition speakers (ls : list App.line) : list str :=
  flat_map (fun l => match l with
                     | App.Utterance _ spk _ => [spk]
                     | _ => []
                     end) ls.

(** The timestamps of the utterance lines, in order. *)
Definition timestamps (ls : list App.line) : list Z :=
  flat_map (fun l => match l with
                     | App.Utterance ts _ _ => [ts]
                     | _ => []
                     end) ls.

(** [n] labels that change at every step, the first for [toggle]. *)
Fixpoint alternation (toggle : bool) (n : nat) : list str :=
  match n with
  | O => []
  | S n' => App.speaker toggle :: alternation (negb toggle) n'
  end.

(** How many utterances the records have between them. *)
Definition utterance_count (records : list record) : nat :=
  list_sum (List.map (fun r => List.length (App.split_dialogues (transcript r)))
                     records).

(** ** The download archive *)

(** The archive holds a comparison report. *)
Definition has_report (entries : list App.zip_entry) : bool :=
  existsb (fun entry => match snd entry with
                        | App.ReportText _ => true
                        | _ => false
                        end) entries.

(** ** The upload loop of the alternate variant, file by file *)

(** ffmpeg has run to its end on the upload, and with exit code 0. *)
Definition exits (u : App.UploadedFile) : bool :=
  match App.ffmpeg (App.world u) WAV with
  | App.Exited _ _ => true
  | _ => false
  end.

Definition converted (u : App.UploadedFile) : bool :=
  match App.ffmpeg (App.world u) WAV with
  | App.Exited returncode _ => returncode =? 0
  | _ => false
  end.

(** The records that one iteration appends for a converted upload. *)
Definition alt_duration (u : App.UploadedFile) : Q :=
  match App.from_file (App.world u) (Converted WAV) with
  | Return len_ms => (inject_Z len_ms / 1000)%Q
  | Raise _ => 0%Q
  end.

Definition alt_stt_entry (chunk_duration : Z) (u : App.UploadedFile) : record :=
  {| filename := App.name u;
     datetime := App.extract_datetime_from_filename (App.world u);
     duration_sec := alt_duration u;
     transcript :=
       AppAlt.transcribe_google_stt (App.world u) (Converted WAV) chunk_duration |}.

Definition alt_gemini_entry (u : App.UploadedFile) : record :=
  {| filename := App.name u;
     datetime := App.extract_datetime_from_filename (App.world u);
     duration_sec := alt_duration u;
     transcript := AppAlt.transcribe_gemini (App.world u) (Converted WAV) |}.

(** An upload whose records lie within the calendar: the date taken from
    its name and that date plus its duration are both dates a [datetime]
    can hold. *)
Definition on_calendar (u : App.UploadedFile) : Prop :=
  within_calendar (gemini_entry u).

(** * Proofs *)

Section Segmenter.

Variables len_ms w : Z.
Hypothesis Hw : 0 < w.

Lemma split_chunks_windows :
  split_chunks len_ms w = Return (windows len_ms w 0 (range_len len_ms w)).
Proof.
  unfold split_chunks, range0.
  destruct (Z.eqb_spec w 0) as [E | _]; [lia | reflexivity].
Qed.

Lemma range_len_ceil :
  0 <= len_ms -> Z.of_nat (range_len len_ms w) = (len_ms + w - 1) / w.
Proof.
  intros Hl. unfold range_len.
  destruct (Z.ltb_spec 0 w) as [_ | ?]; [| lia].
  apply Z2Nat.id. apply Z.div_pos; lia.
Qed.

(** The last index of the range still lies inside the audio. *)
Lemma range_last_inside :
  0 <= len_ms -> (Z.of_nat (range_len len_ms w) - 1) * w < len_ms \/ len_ms = 0.
Proof.
  intros Hl. rewrite range_len_ceil by assumption.
  destruct (Z.eq_dec len_ms 0) as [-> | Hne]; [now right | left].
  pose proof (Z.mul_div_le (len_ms + w - 1) w Hw). nia.
Qed.

Lemma range_covers :
  0 <= len_ms -> len_ms <= Z.of_nat (range_len len_ms w) * w.
Proof.
  intros Hl. rewrite range_len_ceil by assumption.
  pose proof (Z.mod_pos_bound (len_ms + w - 1) w Hw).
  pose proof (Z.div_mod (len_ms + w - 1) w ltac:(lia)). nia.
Qed.

Lemma windows_cons a m :
  windows len_ms w a (S m)
  = slice len_ms (Z.of_nat a * w) (Z.of_nat a * w + w) :: windows len_ms w (S a) m.
Proof. reflexivity. Qed.

Lemma windows_length a m : List.length (windows len_ms w a m) = m.
Proof. unfold windows. now rewrite !length_map, length_seq. Qed.

Lemma windows_contiguous m : forall a,
  (Z.of_nat a + Z.of_nat m - 1) * w < len_ms ->
  contiguous_from (Z.of_nat a * w) (windows len_ms w a m).
Proof.
  induction m as [| m IH]; intros a Hin; [exact I |].
  rewrite windows_cons. cbn [contiguous_from slice start_ms duration_ms].
  assert (Z.of_nat a * w < len_ms) by nia.
  repeat split; [lia | lia |].
  destruct m as [| m']; [exact I |].
  assert (Z.of_nat a * w + w <= len_ms) by nia.
  match goal with
  | |- contiguous_from ?t _ => replace t with (Z.of_nat (S a) * w) by lia
  end.
  apply IH. lia.
Qed.

Lemma windows_total m : forall a,
  (Z.of_nat a + Z.of_nat m - 1) * w < len_ms ->
  len_ms <= (Z.of_nat a + Z.of_nat m) * w ->
  (0 < m)%nat ->
  total_duration (windows len_ms w a m) = len_ms - Z.of_nat a * w.
Proof.
  induction m as [| m IH]; intros a Hin Hcov Hm; [lia |].
  rewrite windows_cons. unfold total_duration in *.
  cbn [List.map fold_right slice duration_ms].
  destruct m as [| m'].
  - cbn. lia.
  - rewrite IH by lia. nia.
Qed.

Lemma windows_full_but_last m : forall a,
  (Z.of_nat a + Z.of_nat m - 1) * w < len_ms ->
  full_but_last w (windows len_ms w a m).
Proof.
  induction m as [| m IH]; intros a Hin; [exact I |].
  rewrite windows_cons. destruct m as [| m'].
  - cbn. lia.
  - pose proof (IH (S a) ltac:(lia)) as IH'.
    rewrite windows_cons in IH' |- *. cbn [full_but_last].
    split; [cbn [slice duration_ms]; nia | exact IH'].
Qed.

End Segmenter.

Lemma ceil_div_neg (a b : Z) : 0 < b -> - ((- a) / b) = (a + b - 1) / b.
Proof.
  intros Hb.
  pose proof (Z.div_mod (- a) b ltac:(lia)) as E1.
  pose proof (Z.mod_pos_bound (- a) b Hb) as B1.
  apply Z.div_unique with (r := (b - 1 - (- a) mod b)); lia.
Qed.

Lemma Qceiling_div (a b : Z) :
  0 < b -> Qceiling (inject_Z a / inject_Z b) = (a + b - 1) / b.
Proof.
  intros Hb. unfold Qceiling.
  assert (E : (- (inject_Z a / inject_Z b) == inject_Z (- a) / inject_Z b)%Q).
  { rewrite inject_Z_opp. field. intros H.
    apply (eq_sym) in H. revert H. apply Qlt_not_eq.
    change 0%Q with (inject_Z 0). now rewrite <- Zlt_Qlt. }
  rewrite E, <- Zdiv_Qdiv. now apply ceil_div_neg.
Qed.

(** C7. For an audio of [len_ms] milliseconds cut with a window of [w]
    milliseconds ([w] positive), the splitting loop of both variants
    returns exactly ceil(len_ms / w) chunks; their durations sum to
    [len_ms]; the first starts at 0 and each next one starts where the
    previous ended, none being empty, so the start offsets increase
    strictly without gap or overlap; every chunk but the last lasts
    exactly [w] and the last at most [w]. *)
Theorem C7_split_chunks_tiles_audio (len_ms w : Z) :
  0 <= len_ms -> 0 < w ->
  exists chunks,
    split_chunks len_ms w = Return chunks /\
    Z.of_nat (List.length chunks) = Qceiling (inject_Z len_ms / inject_Z w) /\
    total_duration chunks = len_ms /\
    contiguous_from 0 chunks /\
    full_but_last w chunks.
Proof.
  intros Hl Hw. exists (windows len_ms w 0 (range_len len_ms w)).
  pose proof (range_len_ceil len_ms w Hw Hl) as Hn.
  pose proof (range_last_inside len_ms w Hw Hl) as Hin.
  pose proof (range_covers len_ms w Hw Hl) as Hcov.
  split; [now apply split_chunks_windows |].
  split; [rewrite windows_length, Qceiling_div by assumption; exact Hn |].
  destruct (range_len len_ms w) as [| n] eqn:En.
  - assert (len_ms = 0) by lia. subst len_ms. cbn. auto.
  - destruct Hin as [Hin | ->].
    + split; [| split].
      * rewrite windows_total; lia.
      * apply (windows_contiguous len_ms w Hw (S n) 0). lia.
      * apply windows_full_but_last; lia.
    + exfalso. rewrite Z.add_0_l, Z.div_small in Hn by lia. lia.
Qed.

(** The 125-second clip cut at 50 seconds. *)
Lemma C7_witness :
  exists chunks,
    split_chunks 125000 50000 = Return chunks /\
    Z.of_nat (List.length chunks) = Qceiling (inject_Z 125000 / inject_Z 50000) /\
    total_duration chunks = 125000 /\
    contiguous_from 0 chunks /\
    full_but_last 50000 chunks.
Proof. apply (C7_split_chunks_tiles_audio 125000 50000); lia. Defined.


(** ** Blank strings *)

Lemma has_nonspace_app (a b : str) :
  has_nonspace (a ++ b) = has_nonspace a || has_nonspace b.
Proof. apply existsb_app. Qed.

Lemma has_nonspace_rev (s : str) : has_nonspace (rev s) = has_nonspace s.
Proof.
  induction s as [| c s IH]; [reflexivity |].
  cbn [rev]. rewrite has_nonspace_app, IH. cbn. now rewrite orb_false_r, orb_comm.
Qed.

Lemma has_nonspace_lstrip (s : str) : has_nonspace (lstrip s) = has_nonspace s.
Proof.
  induction s as [| c s IH]; [reflexivity |].
  cbn [lstrip has_nonspace existsb]. destruct (isspace c) eqn:E.
  - exact IH.
  - cbn [has_nonspace existsb]. now rewrite E.
Qed.

Lemma has_nonspace_strip (s : str) : has_nonspace (strip s) = has_nonspace s.
Proof.
  unfold strip, rstrip.
  now rewrite has_nonspace_rev, has_nonspace_lstrip, has_nonspace_rev,
    has_nonspace_lstrip.
Qed.

Lemma lstrip_blank (s : str) : has_nonspace s = false -> lstrip s = [].
Proof.
  induction s as [| c s IH]; [reflexivity |].
  cbn [lstrip has_nonspace existsb]. destruct (isspace c); cbn; [exact IH | discriminate].
Qed.

(** [s.strip() == ""] exactly when [s] is empty or whitespace only. *)
Lemma strip_empty_iff (s : str) : strip s = [] <-> has_nonspace s = false.
Proof.
  split.
  - intros E. rewrite <- has_nonspace_strip, E. reflexivity.
  - intros H. unfold strip, rstrip.
    rewrite (lstrip_blank s H). reflexivity.
Qed.

Lemma has_nonspace_concat (parts : list str) (piece : str) :
  In piece parts -> has_nonspace piece = true ->
  has_nonspace (join0 parts) = true.
Proof.
  induction parts as [| a parts IH]; intros Hin Hp; [destruct Hin |].
  unfold join0 in *. cbn [List.concat]. rewrite has_nonspace_app.
  destruct Hin as [-> | Hin]; [now rewrite Hp | rewrite (IH Hin Hp)].
  apply orb_true_r.
Qed.

Lemma str_eqb_nil (s : str) : str_eqb s [] = negb (truthy s).
Proof. destruct s; reflexivity. Qed.

(** ** Sequencing *)

Lemma bind_Return {A B : Type} (a : A) (k : A -> res B) :
  (Return a ≫= k) = k a.
Proof. reflexivity. Qed.

Lemma bind_Raise {A B : Type} (msg : str) (k : A -> res B) :
  (Raise msg ≫= k) = Raise msg.
Proof. reflexivity. Qed.

Lemma has_nonspace_cons (c : char) (s : str) :
  isspace c = false -> has_nonspace (c :: s) = true.
Proof. intros H. unfold has_nonspace. cbn [existsb]. now rewrite H. Qed.

Lemma lit_chunk_open : lit "[第" = [0x5B; 0x7B2C]%N.
Proof. vm_compute. reflexivity. Qed.

(** ** The recognizer path of the full variant *)

Section RecognizerPath.
Import App AppSpec.

Lemma recognize_chunk_succeeds w p idx c results :
  succeeds w p c results -> recognize_chunk w p idx c = join0 results.
Proof.
  intros (n & He & Hn & Hr). unfold recognize_chunk.
  rewrite He, bind_Return.
  destruct (Z.ltb_spec max_size_bytes n) as [? | _]; [lia |].
  rewrite Hr, bind_Return. now destruct (join0 results).
Qed.

Lemma recognize_chunk_backend_fails w p idx c msg :
  backend_fails w p c msg -> recognize_chunk w p idx c = chunk_except idx msg.
Proof.
  intros (n & He & Hn & Hr). unfold recognize_chunk.
  rewrite He, bind_Return.
  destruct (Z.ltb_spec max_size_bytes n) as [? | _]; [lia |].
  now rewrite Hr, bind_Raise.
Qed.

Lemma chunk_except_marker idx msg : marker_for idx (chunk_except idx msg).
Proof.
  unfold chunk_except, chunk_quota, chunk_failed.
  destruct (contains _ _); [exists (lit "段: 配額不足") | exists (lit "段辨識失敗")];
    reflexivity.
Qed.

Lemma recognize_chunk_fails_marker w p idx c :
  chunk_fails w p c -> marker_for idx (recognize_chunk w p idx c).
Proof.
  intros [(msg & He) | [(n & He & Hn) | (msg & Hb)]].
  - unfold recognize_chunk. rewrite He, bind_Raise. apply chunk_except_marker.
  - unfold recognize_chunk. rewrite He, bind_Return.
    destruct (Z.ltb_spec max_size_bytes n) as [_ | ?]; [| lia].
    exists (lit "段過大，跳過"). reflexivity.
  - rewrite (recognize_chunk_backend_fails _ _ _ _ _ Hb).
    apply chunk_except_marker.
Qed.

Lemma marker_nonspace idx s : marker_for idx s -> has_nonspace s = true.
Proof.
  intros (kind & ->). rewrite lit_chunk_open.
  apply has_nonspace_cons. vm_compute. reflexivity.
Qed.

Lemma recognize_chunks_nth w p chunks : forall idx k c,
  nth_error chunks k = Some c ->
  nth_error (recognize_chunks w p idx chunks) k
  = Some (recognize_chunk w p (idx + k) c).
Proof.
  induction chunks as [| c0 chunks IH]; intros idx k c Hk.
  - destruct k; discriminate.
  - destruct k as [| k]; cbn [nth_error recognize_chunks] in *.
    + injection Hk as ->. now rewrite Nat.add_0_r.
    + rewrite (IH (S idx) k c Hk). do 2 f_equal. lia.
Qed.

(** A transcript holding a marker is kept as it is by the merge. *)
Lemma merge_keeps_marked (transcripts : list str) (piece : str) :
  In piece transcripts -> has_nonspace piece = true ->
  merge_transcripts transcripts = join0 transcripts.
Proof.
  intros Hin Hp. unfold merge_transcripts.
  pose proof (has_nonspace_concat _ _ Hin Hp) as Hns.
  rewrite str_eqb_nil.
  destruct (strip (join0 transcripts)) eqn:Es.
  - apply strip_empty_iff in Es. congruence.
  - destruct (join0 transcripts); [discriminate Hns | reflexivity].
Qed.

End RecognizerPath.

Section ChunkedPath.
Import App AppSpec.

Variables (w : World) (p : path) (m len_ms file_size : Z) (chunks : list chunk).
Hypothesis Hclient : speech_client w = Return tt.
Hypothesis Hlen : from_file w p = Return len_ms.
Hypothesis Hsize : getsize w p = Return file_size.
Hypothesis Hlong :
  (len_ms <=? 1000 * m) && (file_size <=? max_size_bytes) = false.
Hypothesis Hsplit : split_chunks len_ms (m * 1000) = Return chunks.

(** On the long branch the result is the merge of the per-chunk pieces. *)
Lemma stt_recognize_chunked :
  stt_recognize w p m = Return (merge_transcripts (recognize_chunks w p 0 chunks)).
Proof.
  unfold stt_recognize.
  rewrite Hclient, bind_Return, Hlen, bind_Return, Hsize, bind_Return, Hlong.
  now rewrite Hsplit, bind_Return.
Qed.

End ChunkedPath.

(** A failed chunk leaves its marker at its own place in the transcript,
    and the merge keeps the concatenation. *)
Lemma failed_chunk_kept (w : App.World) (p : path) (chunks : list chunk)
    (k : nat) (c : chunk) :
  nth_error chunks k = Some c -> AppSpec.chunk_fails w p c ->
  let pieces := App.recognize_chunks w p 0 chunks in
  (exists marker, nth_error pieces k = Some marker /\ AppSpec.marker_for k marker) /\
  App.merge_transcripts pieces = join0 pieces.
Proof.
  intros Hk Hfail pieces.
  pose proof (recognize_chunks_nth w p chunks 0 k c Hk) as Hp.
  pose proof (recognize_chunk_fails_marker w p k c Hfail) as Hm.
  cbn [Nat.add] in Hp. split.
  - eexists. split; [exact Hp | exact Hm].
  - eapply merge_keeps_marked.
    + eapply nth_error_In. exact Hp.
    + eapply marker_nonspace. exact Hm.
Qed.

(** ** The recognizer path of the alternate variant *)

Section AltChunks.

Variables (w : App.World) (p : path).

Lemma alt_recognize_chunks (chunks : list chunk) :
  Forall (fun c => exists n, App.export w p c = Return n) chunks ->
  AppAlt.recognize_chunks w p chunks
  = Return (List.map (AppAlt.recognize_piece w p) chunks).
Proof.
  induction 1 as [| c rest (n & He) _ IH]; [reflexivity |].
  cbn [AppAlt.recognize_chunks List.map].
  now rewrite He, bind_Return, IH, bind_Return.
Qed.

End AltChunks.

Lemma truthy_strip (s : str) : truthy (strip s) = has_nonspace s.
Proof.
  destruct (has_nonspace s) eqn:H.
  - destruct (strip s) eqn:E; [| reflexivity].
    apply strip_empty_iff in E. congruence.
  - apply strip_empty_iff in H. now rewrite H.
Qed.

Lemma alt_merge (transcripts : list str) :
  AppAlt.merge_transcripts transcripts
  = if has_nonspace (join0 transcripts) then join0 transcripts else NO_CONTENT.
Proof. unfold AppAlt.merge_transcripts. now rewrite truthy_strip. Qed.

Lemma chunk_quota_second : App.chunk_quota 1 = lit "[第2段: 配額不足]".
Proof. vm_compute. reflexivity. Qed.

Lemma split_125_by_50 :
  split_chunks 125000 (50 * 1000)
  = Return [mk_chunk 0 50000; mk_chunk 50000 50000; mk_chunk 100000 25000].
Proof. vm_compute. reflexivity. Qed.

(** C1 (amended). In the full variant, a 125-second audio cut at 50 seconds
    gives exactly 3 chunks, and when the backend call for chunk 2 raises a
    quota error while chunks 1 and 3 are recognized, the transcript is
    chunk-1 text, then the bracketed marker carrying position 2 and the
    quota kind, then chunk-3 text.  More generally every failed chunk of the
    long branch leaves, at its own index, a bracketed marker with its
    1-based position, and the merged transcript is the plain concatenation
    of all pieces.  In the alternate variant a failed recognition
    contributes the empty string instead. *)
Theorem C1_failed_chunk_marker_in_full_variant
    (w : App.World) (file_size : Z) (r1 r3 : list str) (e : str) :
  let p := App.stt_working_path w in
  App.speech_client w = Return tt ->
  App.from_file w p = Return 125000 ->
  App.getsize w p = Return file_size ->
  AppSpec.succeeds w p (mk_chunk 0 50000) r1 ->
  AppSpec.backend_fails w p (mk_chunk 50000 50000) e ->
  contains (lit "quota") (lower e) = true ->
  AppSpec.succeeds w p (mk_chunk 100000 25000) r3 ->
  split_chunks 125000 (50 * 1000)
    = Return [mk_chunk 0 50000; mk_chunk 50000 50000; mk_chunk 100000 25000] /\
  App.transcribe_google_stt w 50
    = join0 r1 ++ lit "[第2段: 配額不足]" ++ join0 r3 /\
  AppSpec.marker_for 1 (lit "[第2段: 配額不足]") /\
  (forall w' m len_ms size chunks k c,
     let p' := App.stt_working_path w' in
     App.speech_client w' = Return tt ->
     App.from_file w' p' = Return len_ms ->
     App.getsize w' p' = Return size ->
     (len_ms <=? 1000 * m) && (size <=? App.max_size_bytes) = false ->
     split_chunks len_ms (m * 1000) = Return chunks ->
     nth_error chunks k = Some c -> AppSpec.chunk_fails w' p' c ->
     let pieces := App.recognize_chunks w' p' 0 chunks in
     App.transcribe_google_stt w' m = join0 pieces /\
     exists marker, nth_error pieces k = Some marker /\ AppSpec.marker_for k marker) /\
  (forall w' p' r1' r3' e',
     App.speech_client w' = Return tt ->
     App.from_file w' p' = Return 125000 ->
     Forall (fun c => exists n, App.export w' p' c = Return n)
            [mk_chunk 0 50000; mk_chunk 50000 50000; mk_chunk 100000 25000] ->
     App.recognize w' (ChunkOf p' (mk_chunk 0 50000)) = Return r1' ->
     App.recognize w' (ChunkOf p' (mk_chunk 50000 50000)) = Raise e' ->
     App.recognize w' (ChunkOf p' (mk_chunk 100000 25000)) = Return r3' ->
     AppAlt.transcribe_google_stt w' p' 50
     = if has_nonspace (join0 r1' ++ join0 r3')
       then join0 r1' ++ join0 r3' else NO_CONTENT).
Proof.
  intros p Hclient Hlen Hsize H1 H2 Hq H3.
  split; [exact split_125_by_50 |].
  assert (Hmark : AppSpec.marker_for 1 (lit "[第2段: 配額不足]")).
  { rewrite <- chunk_quota_second. exists (lit "段: 配額不足"). reflexivity. }
  split; [| split; [exact Hmark | split]].
  - unfold App.transcribe_google_stt. fold p.
    rewrite (stt_recognize_chunked w p 50 125000 file_size _
               Hclient Hlen Hsize eq_refl split_125_by_50).
    cbn [App.recognize_chunks].
    rewrite (recognize_chunk_succeeds _ _ _ _ _ H1),
            (recognize_chunk_backend_fails _ _ _ _ _ H2),
            (recognize_chunk_succeeds _ _ _ _ _ H3).
    unfold App.chunk_except. rewrite Hq, chunk_quota_second.
    rewrite (merge_keeps_marked _ (lit "[第2段: 配額不足]")).
    + unfold join0. cbn [List.concat]. now rewrite app_nil_r.
    + right. left. reflexivity.
    + now apply (marker_nonspace 1).
  - intros w' m len_ms size chunks k c p' Hc Hl Hs Hlong Hsplit Hk Hfail pieces.
    destruct (failed_chunk_kept w' p' chunks k c Hk Hfail) as [Hm Hkeep].
    split; [| exact Hm].
    unfold App.transcribe_google_stt. fold p'.
    rewrite (stt_recognize_chunked w' p' m len_ms size chunks Hc Hl Hs Hlong Hsplit).
    exact Hkeep.
  - intros w' p' r1' r3' e' Hc Hl Hex Hr1 Hr2 Hr3.
    unfold AppAlt.transcribe_google_stt, AppAlt.stt_recognize.
    rewrite Hc, bind_Return, Hl, bind_Return, split_125_by_50, bind_Return.
    rewrite (alt_recognize_chunks w' p' _ Hex), bind_Return, alt_merge.
    cbn [List.map]. unfold AppAlt.recognize_piece. rewrite Hr1, Hr2, Hr3.
    unfold join0 at 1 4. cbn [List.concat]. now rewrite !app_nil_r.
Qed.

Ltac closed := vm_compute; first [reflexivity | discriminate].

Lemma C1_witness :
  App.transcribe_google_stt Demo.clip125 50
  = lit "列車進站[第2段: 配額不足]請注意".
Proof.
  destruct (C1_failed_chunk_marker_in_full_variant Demo.clip125 4000044
              [lit "列車進站"] [lit "請注意"] (lit "429 Quota exceeded"))
    as (_ & E & _).
  - closed.
  - closed.
  - closed.
  - exists 1600044. repeat split; closed.
  - exists 1600044. repeat split; closed.
  - closed.
  - exists 800044. repeat split; closed.
  - rewrite E. closed.
Defined.

(** C1 as stated fails on the alternate variant: with the same three chunks
    and the same quota error on chunk 2, the transcript is chunk-1 text
    directly followed by chunk-3 text, with no marker in between. *)
Lemma C1_counterexample :
  split_chunks 125000 (50 * 1000)
    = Return [mk_chunk 0 50000; mk_chunk 50000 50000; mk_chunk 100000 25000] /\
  App.recognize Demo.clip125 (ChunkOf (Converted WAV) (mk_chunk 0 50000))
    = Return [lit "列車進站"] /\
  App.recognize Demo.clip125 (ChunkOf (Converted WAV) (mk_chunk 50000 50000))
    = Raise (lit "429 Quota exceeded") /\
  App.recognize Demo.clip125 (ChunkOf (Converted WAV) (mk_chunk 100000 25000))
    = Return [lit "請注意"] /\
  AppAlt.transcribe_google_stt Demo.clip125 (Converted WAV) 50
    = lit "列車進站請注意" /\
  ~ (exists marker,
       AppSpec.marker_for 1 marker /\
       AppAlt.transcribe_google_stt Demo.clip125 (Converted WAV) 50
       = lit "列車進站" ++ marker ++ lit "請注意").
Proof.
  assert (E : AppAlt.transcribe_google_stt Demo.clip125 (Converted WAV) 50
              = lit "列車進站請注意") by closed.
  repeat split; try closed.
  intros (marker & (kind & ->) & E').
  rewrite E in E'. apply (f_equal (@List.length _)) in E'.
  rewrite !length_app in E'.
  replace (List.length (lit "列車進站請注意")) with 7%nat in E' by closed.
  replace (List.length (lit "列車進站")) with 4%nat in E' by closed.
  replace (List.length (lit "請注意")) with 3%nat in E' by closed.
  replace (List.length (lit "[第")) with 2%nat in E' by closed.
  lia.
Qed.

(** ** Blank transcripts *)

Lemma merge_blank (transcripts : list str) :
  has_nonspace (join0 transcripts) = false ->
  App.merge_transcripts transcripts = NO_CONTENT.
Proof.
  intros H. unfold App.merge_transcripts.
  apply strip_empty_iff in H. rewrite H, str_eqb_nil. cbn [truthy negb].
  now rewrite orb_true_r.
Qed.

Lemma NO_CONTENT_chars :
  NO_CONTENT = [0x5B; 0x7121; 0x6CD5; 0x8FA8; 0x8B58; 0x5167; 0x5BB9; 0x5D]%N.
Proof. vm_compute. reflexivity. Qed.

Lemma marker_not_sentinel idx s rest :
  AppSpec.marker_for idx s -> s ++ rest <> NO_CONTENT.
Proof.
  intros (kind & ->). rewrite lit_chunk_open, NO_CONTENT_chars.
  cbn [app]. intros H. injection H as H _. discriminate H.
Qed.

Lemma alt_all_fail_blank w p chunks :
  Forall (fun c => exists e, App.recognize w (ChunkOf p c) = Raise e) chunks ->
  join0 (List.map (AppAlt.recognize_piece w p) chunks) = [].
Proof.
  induction 1 as [| c rest (e & He) _ IH]; [reflexivity |].
  cbn [List.map]. unfold AppAlt.recognize_piece at 1. rewrite He.
  exact IH.
Qed.

(** C2 (amended). On the chunked branch of the full variant and in the
    alternate variant, whenever the concatenation of the per-chunk pieces
    is empty or whitespace-only the transcript is the sentinel exactly; in
    the alternate variant this covers the case of every recognition
    failing.  On the unchunked branch of the full variant the test is for
    the empty string only: an empty recognition gives the sentinel, and any
    other recognition, a whitespace-only one included, is returned as it
    is.  In the full variant a file whose chunks all failed (at least one
    chunk) gets the concatenation of their markers instead, which is not
    the sentinel. *)
Theorem C2_blank_transcript_is_sentinel :
  (forall w m len_ms size chunks,
     let p := App.stt_working_path w in
     App.speech_client w = Return tt ->
     App.from_file w p = Return len_ms ->
     App.getsize w p = Return size ->
     (len_ms <=? 1000 * m) && (size <=? App.max_size_bytes) = false ->
     split_chunks len_ms (m * 1000) = Return chunks ->
     let pieces := App.recognize_chunks w p 0 chunks in
     (has_nonspace (join0 pieces) = false ->
      App.transcribe_google_stt w m = NO_CONTENT) /\
     (chunks <> [] -> Forall (AppSpec.chunk_fails w p) chunks ->
      App.transcribe_google_stt w m = join0 pieces /\
      App.transcribe_google_stt w m <> NO_CONTENT)) /\
  (forall w m len_ms size results,
     let p := App.stt_working_path w in
     App.speech_client w = Return tt ->
     App.from_file w p = Return len_ms ->
     App.getsize w p = Return size ->
     (len_ms <=? 1000 * m) && (size <=? App.max_size_bytes) = true ->
     App.recognize w (WholeFile p) = Return results ->
     (join0 results = [] -> App.transcribe_google_stt w m = NO_CONTENT) /\
     (join0 results <> [] -> App.transcribe_google_stt w m = join0 results)) /\
  (forall w p m len_ms chunks,
     App.speech_client w = Return tt ->
     App.from_file w p = Return len_ms ->
     split_chunks len_ms (m * 1000) = Return chunks ->
     Forall (fun c => exists n, App.export w p c = Return n) chunks ->
     let pieces := List.map (AppAlt.recognize_piece w p) chunks in
     (has_nonspace (join0 pieces) = false ->
      AppAlt.transcribe_google_stt w p m = NO_CONTENT) /\
     (Forall (fun c => exists e, App.recognize w (ChunkOf p c) = Raise e) chunks ->
      AppAlt.transcribe_google_stt w p m = NO_CONTENT)).
Proof.
  split; [| split].
  - intros w m len_ms size chunks p Hc Hl Hs Hlong Hsplit pieces.
    assert (E : App.transcribe_google_stt w m = App.merge_transcripts pieces).
    { unfold App.transcribe_google_stt. fold p.
      now rewrite (stt_recognize_chunked w p m len_ms size chunks Hc Hl Hs Hlong Hsplit). }
    split.
    + intros Hblank. rewrite E. now apply merge_blank.
    + intros Hne Hall. destruct chunks as [| c0 rest]; [congruence |].
      assert (Hk : nth_error (c0 :: rest) 0 = Some c0) by reflexivity.
      destruct (failed_chunk_kept w p (c0 :: rest) 0 c0 Hk) as [_ Hkeep].
      { now inversion Hall. }
      fold pieces in Hkeep. rewrite E, Hkeep. split; [reflexivity |].
      subst pieces. cbn [App.recognize_chunks]. unfold join0. cbn [List.concat].
      apply marker_not_sentinel with (idx := 0%nat).
      apply recognize_chunk_fails_marker. now inversion Hall.
  - intros w m len_ms size results p Hc Hl Hs Hshort Hr.
    unfold App.transcribe_google_stt, App.stt_recognize. fold p.
    rewrite Hc, bind_Return, Hl, bind_Return, Hs, bind_Return, Hshort.
    rewrite Hr, bind_Return.
    split; intros H; [now rewrite H |].
    destruct (join0 results); [congruence | reflexivity].
  - intros w p m len_ms chunks Hc Hl Hsplit Hex pieces.
    assert (E : AppAlt.transcribe_google_stt w p m
                = if has_nonspace (join0 pieces) then join0 pieces else NO_CONTENT).
    { unfold AppAlt.transcribe_google_stt, AppAlt.stt_recognize.
      rewrite Hc, bind_Return, Hl, bind_Return, Hsplit, bind_Return.
      now rewrite (alt_recognize_chunks w p _ Hex), bind_Return, alt_merge. }
    split.
    + intros Hblank. now rewrite E, Hblank.
    + intros Hall. rewrite E. subst pieces.
      now rewrite (alt_all_fail_blank w p chunks Hall).
Qed.

Lemma C2_witness :
  AppAlt.transcribe_google_stt Demo.all_refused (Converted WAV) 50 = NO_CONTENT.
Proof.
  destruct C2_blank_transcript_is_sentinel as (_ & _ & Halt).
  destruct (Halt Demo.all_refused (Converted WAV) 50 125000
              [mk_chunk 0 50000; mk_chunk 50000 50000; mk_chunk 100000 25000])
    as [_ Hall].
  - closed.
  - closed.
  - closed.
  - repeat (apply Forall_cons_2; [eexists; closed |]). apply Forall_nil_2.
  - apply Hall.
    repeat (apply Forall_cons_2; [eexists; closed |]). apply Forall_nil_2.
Defined.

(** C2 as stated fails on the full variant: when all three chunks of the
    125-second upload fail, the transcript is the three markers, not the
    sentinel. *)
Lemma C2_counterexample :
  Forall (AppSpec.chunk_fails Demo.all_refused
            (App.stt_working_path Demo.all_refused))
         [mk_chunk 0 50000; mk_chunk 50000 50000; mk_chunk 100000 25000] /\
  App.transcribe_google_stt Demo.all_refused 50
    = lit "[第1段辨識失敗][第2段辨識失敗][第3段辨識失敗]" /\
  App.transcribe_google_stt Demo.all_refused 50 <> NO_CONTENT.
Proof.
  split; [| split].
  - repeat (apply Forall_cons_2; [right; right;
      exists (lit "503 service unavailable");
      eexists; repeat split; closed |]).
    apply Forall_nil_2.
  - closed.
  - closed.
Qed.

(** The short branch only tests for the empty string: a blank recognition
    is returned as it is. *)
Remark short_branch_keeps_blank :
  App.transcribe_google_stt Demo.short_blank 50 = lit " ".
Proof. closed. Qed.

(** ** The comparison report *)

Section Similarity.
Import App.

Lemma inject_nat_pos (d : nat) : (0 < d)%nat -> (0 < inject_Z (Z.of_nat d))%Q.
Proof. intros H. unfold Qlt. cbn. lia. Qed.

Lemma ratio_bounds (n d : nat) :
  (n <= d)%nat -> (0 < d)%nat ->
  (0 <= inject_Z (Z.of_nat n) / inject_Z (Z.of_nat d) * 100 <= 100)%Q.
Proof.
  intros Hn Hd. pose proof (inject_nat_pos d Hd) as Hp.
  assert (H0 : (0 <= inject_Z (Z.of_nat n) / inject_Z (Z.of_nat d))%Q).
  { apply Qle_shift_div_l; [exact Hp |]. unfold Qle. cbn. lia. }
  assert (H1 : (inject_Z (Z.of_nat n) / inject_Z (Z.of_nat d) <= 1)%Q).
  { apply Qle_shift_div_r; [exact Hp |]. unfold Qle. cbn. lia. }
  split.
  - apply Qmult_le_0_compat; [exact H0 | discriminate].
  - apply (Qmult_le_compat_r _ _ 100) in H1; [| discriminate].
    exact H1.
Qed.

Lemma truediv_pos (a b : Q) : (0 < b)%Q -> truediv a b = Return (a / b)%Q.
Proof.
  intros Hb. unfold truediv.
  destruct (Qeq_bool b 0) eqn:E; [| reflexivity].
  apply Qeq_bool_iff in E. rewrite E in Hb. discriminate Hb.
Qed.

Lemma common_le_divisor (X Y : gset char) :
  (size (X ∩ Y) <= Nat.max (Nat.max (size X) (size Y)) 1)%nat.
Proof.
  assert (size (X ∩ Y) <= size X)%nat by (apply subseteq_size; set_solver).
  lia.
Qed.

Lemma similarity_pct_value (a b : str) :
  similarity_pct a b =
  Return (inject_Z (Z.of_nat (size (char_set a ∩ char_set b)))
          / inject_Z (Z.of_nat (Nat.max (Nat.max (size (char_set a))
                                                 (size (char_set b))) 1))
          * 100)%Q.
Proof.
  unfold similarity_pct. rewrite truediv_pos; [reflexivity |].
  apply inject_nat_pos. lia.
Qed.

Lemma formattable_Return (seconds : Q) :
  formattable seconds = true ->
  exists text, format_duration seconds = Return text.
Proof.
  unfold formattable.
  destruct (format_duration seconds) as [text | e]; [| discriminate].
  intros _. exists text. reflexivity.
Qed.

Lemma compare_pair_total (i : nat) (s g : record) :
  formattable (duration_sec s) = true ->
  exists block,
    compare_pair i s g = Return block /\
    List.length block = 21%nat /\
    classification block = status_line (transcript s) (transcript g).
Proof.
  intros F. destruct (formattable_Return _ F) as (text & E).
  unfold compare_pair.
  rewrite E, bind_Return, similarity_pct_value, bind_Return.
  eexists. split; [reflexivity |]. split; reflexivity.
Qed.

Lemma compare_pair_overflow (i : nat) (s g : record) (e : str) :
  format_duration (duration_sec s) = Raise e ->
  compare_pair i s g = Raise e.
Proof. intros E. unfold compare_pair. now rewrite E, bind_Raise. Qed.

Lemma compare_pairs_total (sr gr : list record) :
  Forall (fun r => formattable (duration_sec r) = true)
         (firstn (List.length gr) sr) ->
  forall i, exists ls, compare_pairs i sr gr = Return ls.
Proof.
  revert gr. induction sr as [| s sr IH]; intros gr F i.
  - exists []. reflexivity.
  - destruct gr as [| g gr]; [exists []; reflexivity |].
    cbn [List.length firstn] in F. apply Forall_cons in F as [Fs F].
    cbn [compare_pairs].
    destruct (compare_pair_total i s g Fs) as (block & -> & _).
    destruct (IH gr F (S i)) as (more & ->).
    rewrite !bind_Return. eexists. reflexivity.
Qed.


End Similarity.

(** C10. For all transcripts [a] and [b], empty ones included, the divisor
    [max(len(set(a)), len(set(b)), 1)] is at least 1, so the division goes
    through, and the percentage lies between 0 and 100; with an empty
    transcript on either side it is 0. *)
Theorem C10_similarity_total_and_bounded (a b : str) :
  let divisor :=
    Nat.max (Nat.max (size (App.char_set a)) (size (App.char_set b))) 1 in
  (1 <= divisor)%nat /\
  (exists q, App.similarity_pct a b = Return q /\ (0 <= q <= 100)%Q) /\
  (exists q, App.similarity_pct [] b = Return q /\ (q == 0)%Q) /\
  (exists q, App.similarity_pct a [] = Return q /\ (q == 0)%Q).
Proof.
  intros divisor. split; [subst divisor; lia |].
  split; [| split].
  - eexists. split; [apply similarity_pct_value |].
    apply ratio_bounds; [apply common_le_divisor | lia].
  - eexists. split; [apply similarity_pct_value |].
    unfold App.char_set at 1. cbn [list_to_set foldr].
    replace (∅ ∩ App.char_set b) with (∅ : gset char) by set_solver.
    rewrite size_empty. reflexivity.
  - eexists. split; [apply similarity_pct_value |].
    unfold App.char_set at 2. cbn [list_to_set foldr].
    replace (App.char_set a ∩ ∅) with (∅ : gset char) by set_solver.
    rewrite size_empty. reflexivity.
Qed.

Section Report.
Import App.


Lemma generate_comparison_report_total (sr gr : list record) :
  Forall (fun r => formattable (duration_sec r) = true)
         (firstn (List.length gr) sr) ->
  exists ls, generate_comparison_report sr gr = Return ls.
Proof.
  intros F.
  destruct sr as [| s sr]; [eexists; reflexivity |].
  destruct gr as [| g gr]; [eexists; reflexivity |].
  unfold generate_comparison_report.
  cbn [List.length Nat.ltb Nat.leb].
  rewrite truediv_pos by (apply inject_nat_pos; lia).
  destruct (compare_pairs_total (s :: sr) (g :: gr) F 1) as (pairs & ->).
  rewrite !bind_Return. eexists. reflexivity.
Qed.


End Report.

(** ** Durations that can be formatted *)

Lemma py_int_floor (x : Q) : (0 <= x)%Q -> py_int x = Qfloor x.
Proof.
  destruct x as [n d]. unfold Qle, py_int, Qfloor. cbn. intros H.
  apply Z.quot_div_nonneg; lia.
Qed.

Lemma timedelta_Return (n : Z) :
  - 86399999913600 <= n < 86400000000000 -> timedelta n = Return n.
Proof.
  intros H. unfold timedelta. cbv zeta.
  pose proof (Z.div_mod n 86400 ltac:(lia)) as D.
  pose proof (Z.mod_pos_bound n 86400 ltac:(lia)) as M.
  replace ((n / 86400 <? - 2147483648) || (2147483647 <? n / 86400)) with false
    by (symmetry; apply orb_false_iff; split; apply Z.ltb_ge; lia).
  replace ((n / 86400 <? - MAX_DELTA_DAYS) || (MAX_DELTA_DAYS <? n / 86400))
    with false
    by (symmetry; apply orb_false_iff; unfold MAX_DELTA_DAYS;
        split; apply Z.ltb_ge; lia).
  reflexivity.
Qed.

Lemma timedelta_Raise (n : Z) :
  ~ (- 86399999913600 <= n < 86400000000000) -> exists e, timedelta n = Raise e.
Proof.
  intros H. unfold timedelta. cbv zeta.
  pose proof (Z.div_mod n 86400 ltac:(lia)) as D.
  pose proof (Z.mod_pos_bound n 86400 ltac:(lia)) as M.
  destruct ((n / 86400 <? - 2147483648) || (2147483647 <? n / 86400));
    [eexists; reflexivity |].
  replace ((n / 86400 <? - MAX_DELTA_DAYS) || (MAX_DELTA_DAYS <? n / 86400))
    with true; [eexists; reflexivity |].
  symmetry. apply orb_true_iff. unfold MAX_DELTA_DAYS.
  destruct (Z_lt_dec (n / 86400) (- 999999999)) as [L | L];
    [left; now apply Z.ltb_lt | right; apply Z.ltb_lt; lia].
Qed.

Lemma formattable_iff (seconds : Q) :
  formattable seconds = true <->
  - 86399999913600 <= py_int seconds < 86400000000000.
Proof.
  unfold formattable, format_duration. split.
  - intros F.
    destruct (Z_le_dec (- 86399999913600) (py_int seconds)) as [L | L];
      [destruct (Z_lt_dec (py_int seconds) 86400000000000) as [U | U] |];
      [now split | |];
      (destruct (timedelta_Raise (py_int seconds)) as (e & E); [lia |];
       rewrite E, bind_Raise in F; discriminate F).
  - intros H. now rewrite (timedelta_Return _ H), bind_Return.
Qed.

Lemma formattable_bound (seconds : Q) :
  (0 <= seconds)%Q -> (seconds < 86400000000000)%Q ->
  formattable seconds = true.
Proof.
  intros H0 H1. apply formattable_iff.
  rewrite py_int_floor by exact H0.
  pose proof (Qfloor_le seconds) as Hf.
  assert (0 <= Qfloor seconds).
  { change 0 with (Qfloor 0). now apply Qfloor_resp_le. }
  split; [lia |]. rewrite Zlt_Qlt.
  eapply Qle_lt_trans; [exact Hf | exact H1].
Qed.




(** ** The failure heuristic *)

Section Heuristic.
Import App.

Lemma startswith_app (p s t : str) :
  startswith p s = true -> startswith p (s ++ t) = true.
Proof.
  revert s. induction p as [| a p IH]; intros s H; [reflexivity |].
  destruct s as [| b s]; [discriminate H |].
  cbn [startswith app] in *.
  apply andb_true_iff in H as [Hab Hs].
  now rewrite Hab, (IH s Hs).
Qed.

Lemma contains_app (p s t : str) :
  contains p s = true -> contains p (s ++ t) = true.
Proof.
  induction s as [| c s IH]; intros H.
  - destruct p as [| a p]; [| discriminate H].
    destruct t; reflexivity.
  - cbn [contains app] in *.
    apply orb_true_iff in H as [H | H].
    + pose proof (startswith_app p (c :: s) t H) as H'.
      cbn [app] in H'. now rewrite H'.
    + rewrite (IH H). apply orb_true_r.
Qed.

Lemma is_error_app (s t : str) : is_error s = true -> is_error (s ++ t) = true.
Proof.
  unfold is_error. intros H. apply andb_true_iff in H as [H1 H2].
  now rewrite (startswith_app _ _ t H1), (contains_app _ _ t H2).
Qed.

Lemma is_error_stt_except (e : str) : is_error (stt_except e) = true.
Proof.
  unfold stt_except.
  destruct (contains (lit "quota") (lower e)); [closed |].
  destruct (contains (lit "invalid") (lower e)); [closed |].
  destruct (contains (lit "duration limit") (lower e)
            || contains (lit "too long") (lower e)); [closed |].
  apply is_error_app. closed.
Qed.

Lemma is_error_gemini_conversion_failed (message : str) :
  is_error (gemini_conversion_failed message) = true.
Proof. unfold gemini_conversion_failed. apply is_error_app. closed. Qed.

Lemma is_error_NO_CONTENT : is_error NO_CONTENT = false.
Proof. closed. Qed.

Lemma status_lines_distinct :
  BOTH_FAILED <> STT_FAILED /\ BOTH_FAILED <> GEMINI_FAILED /\
  BOTH_FAILED <> BOTH_OK /\ STT_FAILED <> GEMINI_FAILED /\
  STT_FAILED <> BOTH_OK /\ GEMINI_FAILED <> BOTH_OK.
Proof. repeat split; closed. Qed.

Lemma status_line_cases (a b : str) :
  status_line a b =
  match is_error a, is_error b with
  | true, true => BOTH_FAILED
  | true, false => STT_FAILED
  | false, true => GEMINI_FAILED
  | false, false => BOTH_OK
  end.
Proof. unfold status_line. destruct (is_error a), (is_error b); reflexivity. Qed.

(** A four-way choice between distinct values determines both tests. *)
Lemma four_way {A : Type} (x1 x2 x3 x4 : A) (ea eb : bool) :
  x1 <> x2 -> x1 <> x3 -> x1 <> x4 -> x2 <> x3 -> x2 <> x4 -> x3 <> x4 ->
  let r := match ea, eb with
           | true, true => x1
           | true, false => x2
           | false, true => x3
           | false, false => x4
           end in
  (r = x1 <-> ea = true /\ eb = true) /\
  (r = x2 <-> ea = true /\ eb = false) /\
  (r = x3 <-> ea = false /\ eb = true) /\
  (r = x4 <-> ea = false /\ eb = false).
Proof.
  intros D1 D2 D3 D4 D5 D6 r. subst r.
  destruct ea, eb; repeat split; intros; try reflexivity;
    try congruence;
    match goal with H : _ /\ _ |- _ => destruct H; congruence end.
Qed.

End Heuristic.

(** C6 (amended). The classification line of a pair is exactly one of the
    four, decided by the test "starts with '[' and contains 錯誤" on each
    transcript.  A transcript produced by the recognizer path's outer
    exception handler passes that test, so with ordinary text on the other
    side the pair is classified as "Google STT failed, Gemini succeeded".
    The sentinel for unrecognizable content does not pass it: with ordinary
    text on the other side the pair is classified as both succeeded.  The
    block of a pair carries that line whenever [format_duration] accepts
    the duration of the pair's first record; otherwise the block is not
    built and the overflow error of [format_duration] goes up. *)
Theorem C6_status_line_classifies :
  (forall a b,
     (App.status_line a b = App.BOTH_FAILED
      <-> App.is_error a = true /\ App.is_error b = true) /\
     (App.status_line a b = App.STT_FAILED
      <-> App.is_error a = true /\ App.is_error b = false) /\
     (App.status_line a b = App.GEMINI_FAILED
      <-> App.is_error a = false /\ App.is_error b = true) /\
     (App.status_line a b = App.BOTH_OK
      <-> App.is_error a = false /\ App.is_error b = false)) /\
  (forall i s g,
     formattable (duration_sec s) = true ->
     exists block,
       App.compare_pair i s g = Return block /\
       classification block = App.status_line (transcript s) (transcript g)) /\
  (forall e b, App.is_error b = false ->
     App.status_line (App.stt_except e) b = App.STT_FAILED) /\
  (forall b, App.is_error b = false ->
     App.status_line NO_CONTENT b = App.BOTH_OK) /\
  (forall i s g e,
     format_duration (duration_sec s) = Raise e ->
     App.compare_pair i s g = Raise e).
Proof.
  destruct status_lines_distinct as (D1 & D2 & D3 & D4 & D5 & D6).
  split; [| split; [| split; [| split; [| exact compare_pair_overflow]]]].
  - intros a b. rewrite status_line_cases.
    now apply four_way.
  - intros i s g F.
    destruct (compare_pair_total i s g F) as (block & E & _ & C).
    exists block. split; [exact E | exact C].
  - intros e b Hb.
    rewrite status_line_cases, is_error_stt_except, Hb. reflexivity.
  - intros b Hb.
    rewrite status_line_cases, is_error_NO_CONTENT, Hb. reflexivity.
Qed.

Lemma C6_witness :
  App.status_line (App.stt_except (lit "Quota exceeded")) (lit "下一站台北車站")
  = App.STT_FAILED.
Proof.
  destruct C6_status_line_classifies as (_ & _ & H & _).
  apply H. closed.
Defined.

(** C6 as stated fails on its particular case: the sentinel on the
    recognizer side and ordinary text on the other side are classified as
    both succeeded, in the report block of the pair as well; so is the
    transcript of a file whose chunks were all refused. *)
Lemma C6_counterexample :
  App.status_line NO_CONTENT (lit "下一站台北車站") = App.BOTH_OK /\
  App.BOTH_OK <> App.STT_FAILED /\
  (exists block,
     App.compare_pair 2 Demo.stt_b Demo.gemini_b = Return block /\
     classification block = App.BOTH_OK) /\
  App.status_line (App.transcribe_google_stt Demo.all_refused 50)
                  (lit "下一站台北車站") = App.BOTH_OK.
Proof.
  split; [closed |]. split; [closed |]. split; [| closed].
  destruct (compare_pair_total 2 Demo.stt_b Demo.gemini_b ltac:(closed))
    as (block & E & _ & C).
  exists block. split; [exact E |]. rewrite C. closed.
Qed.

(** ** The upload loop *)

Section UploadLoop.
Import App.
Variables (mode : str) (chunk_duration : Z).

Lemma process_file_unreadable (st : State) (u : UploadedFile) :
  readable u = false ->
  process_file mode chunk_duration st u
  = {| stt_records := stt_records st;
       gemini_records := gemini_records st;
       errors := errors st ++ [skip_message u] |}.
Proof.
  unfold readable, skip_message, formattable, process_file. cbv zeta.
  destruct (Qeq_bool (get_audio_info (world u)) 0); [reflexivity |].
  destruct (format_duration (get_audio_info (world u))) as [text | e];
    [discriminate | reflexivity].
Qed.

Lemma process_file_readable (st : State) (u : UploadedFile) :
  readable u = true ->
  process_file mode chunk_duration st u
  = {| stt_records :=
         if use_stt mode
         then stt_records st ++ [stt_entry chunk_duration u]
         else stt_records st;
       gemini_records :=
         if use_gemini mode
         then gemini_records st ++ [gemini_entry u]
         else gemini_records st;
       errors := errors st |}.
Proof.
  unfold readable, formattable, process_file. cbv zeta.
  destruct (Qeq_bool (get_audio_info (world u)) 0); [discriminate |].
  destruct (format_duration (get_audio_info (world u))) as [text | e];
    [reflexivity | discriminate].
Qed.

Lemma fold_process_file (uploaded_files : list UploadedFile) :
  forall st,
    let st' := fold_left (process_file mode chunk_duration) uploaded_files st in
    stt_records st'
    = stt_records st
      ++ (if use_stt mode
          then List.map (stt_entry chunk_duration) (List.filter readable uploaded_files)
          else []) /\
    gemini_records st'
    = gemini_records st
      ++ (if use_gemini mode
          then List.map gemini_entry (List.filter readable uploaded_files)
          else []) /\
    errors st'
    = errors st
      ++ List.map skip_message
           (List.filter (fun u => negb (readable u)) uploaded_files).
Proof.
  induction uploaded_files as [| u rest IH]; intros st.
  - cbn [fold_left List.filter List.map].
    destruct (use_stt mode), (use_gemini mode); rewrite !app_nil_r; auto.
  - cbn [fold_left List.filter].
    specialize (IH (process_file mode chunk_duration st u)).
    cbv zeta in IH |- *. destruct IH as (Hs & Hg & He).
    rewrite Hs, Hg, He. clear Hs Hg He.
    destruct (readable u) eqn:R.
    + rewrite (process_file_readable st u R).
      cbn [stt_records gemini_records errors negb List.map].
      destruct (use_stt mode), (use_gemini mode);
        rewrite <- ?app_assoc; auto.
    + rewrite (process_file_unreadable st u R).
      cbn [stt_records gemini_records errors negb List.map].
      rewrite <- ?app_assoc. auto.
Qed.

Lemma process_files_records (uploaded_files : list UploadedFile) :
  let st := process_files mode chunk_duration uploaded_files in
  stt_records st
  = (if use_stt mode
     then List.map (stt_entry chunk_duration) (List.filter readable uploaded_files)
     else []) /\
  gemini_records st
  = (if use_gemini mode
     then List.map gemini_entry (List.filter readable uploaded_files)
     else []) /\
  errors st
  = List.map skip_message (List.filter (fun u => negb (readable u)) uploaded_files).
Proof. apply (fold_process_file uploaded_files initial). Qed.

End UploadLoop.

Lemma use_stt_DUAL : App.use_stt App.DUAL = true.
Proof. closed. Qed.

Lemma use_gemini_DUAL : App.use_gemini App.DUAL = true.
Proof. closed. Qed.

Lemma aligned_entries (chunk_duration : Z) (us : list App.UploadedFile) :
  Forall2 aligned (List.map (stt_entry chunk_duration) us)
                  (List.map gemini_entry us).
Proof.
  induction us as [| u us IH]; [apply Forall2_nil_2 |].
  apply Forall2_cons_2; [| exact IH].
  split; [reflexivity |]. split; [reflexivity | apply Qeq_refl].
Qed.



(** C4 (amended). Every uploaded file that gets past the [try] of the loop
    (its duration probe gives a non-zero duration that [format_duration]
    accepts, as every duration from 0 up to 86400000000000 seconds is)
    yields exactly one record in the list of each enabled backend, in
    upload order, whatever its transcription came to.  Every other file
    yields no record; the loop shows an error message naming it and goes
    on: the message that the audio cannot be read when the probe gives 0,
    and the message that the processing failed, with the text of the
    exception, when [format_duration] raises.  In the alternate variant a
    file that ffmpeg exits on with a non-zero code is skipped in the same
    way. *)
Theorem C4_readable_uploads_yield_records
    (mode : str) (chunk_duration : Z) (uploaded_files : list App.UploadedFile) :
  let st := App.process_files mode chunk_duration uploaded_files in
  (App.use_stt mode = true ->
     App.stt_records st
     = List.map (stt_entry chunk_duration) (List.filter readable uploaded_files)) /\
  (App.use_gemini mode = true ->
     App.gemini_records st
     = List.map gemini_entry (List.filter readable uploaded_files)) /\
  App.errors st
  = List.map skip_message
      (List.filter (fun u => negb (readable u)) uploaded_files) /\
  (forall u, In u uploaded_files -> readable u = false ->
     In (skip_message u) (App.errors st) /\
     ~ In u (List.filter readable uploaded_files)) /\
  (forall u,
     Qeq_bool (App.get_audio_info (App.world u)) 0 = true ->
     readable u = false /\ skip_message u = App.unreadable u) /\
  (forall u e,
     Qeq_bool (App.get_audio_info (App.world u)) 0 = false ->
     format_duration (App.get_audio_info (App.world u)) = Raise e ->
     readable u = false /\ skip_message u = App.processing_failed u e) /\
  (forall u,
     Qeq_bool (App.get_audio_info (App.world u)) 0 = false ->
     (0 <= App.get_audio_info (App.world u))%Q ->
     (App.get_audio_info (App.world u) < 86400000000000)%Q ->
     readable u = true) /\
  (forall st0 u returncode stderr,
     App.ffmpeg (App.world u) WAV = App.Exited returncode stderr ->
     returncode <> 0 ->
     AppAlt.process_file mode chunk_duration st0 u
     = Return {| App.stt_records := App.stt_records st0;
                 App.gemini_records := App.gemini_records st0;
                 App.errors := App.errors st0 ++ [AppAlt.conversion_failed u] |}).
Proof.
  intros st.
  destruct (process_files_records mode chunk_duration uploaded_files)
    as (Hs & Hg & He).
  fold st in Hs, Hg, He.
  split; [intros U; rewrite U in Hs; exact Hs |].
  split; [intros U; rewrite U in Hg; exact Hg |].
  split; [exact He |].
  split; [| split; [| split; [| split]]].
  - intros u Hin R. split.
    + rewrite He. apply in_map. apply filter_In. split; [exact Hin |].
      rewrite R. reflexivity.
    + intros Hf. apply filter_In in Hf as [_ Hf]. congruence.
  - intros u Z0. unfold readable, skip_message. rewrite Z0. split; reflexivity.
  - intros u e Z0 E. unfold readable, skip_message, formattable.
    rewrite Z0, E. split; reflexivity.
  - intros u Z0 H0 H1. unfold readable. rewrite Z0.
    now rewrite (formattable_bound _ H0 H1).
  - intros st0 u returncode stderr Hff Hrc.
    unfold AppAlt.process_file. rewrite Hff.
    destruct (returncode =? 0) eqn:E; [apply Z.eqb_eq in E; contradiction |].
    reflexivity.
Qed.

Lemma C4_witness :
  App.stt_records (App.process_files App.DUAL 50 [Demo.upload_a; Demo.upload_bad])
  = List.map (stt_entry 50)
      (List.filter readable [Demo.upload_a; Demo.upload_bad]).
Proof.
  destruct (C4_readable_uploads_yield_records
              App.DUAL 50 [Demo.upload_a; Demo.upload_bad]) as (H & _).
  apply H. closed.
Defined.

(** C4 as stated fails: of two uploads, the one whose duration cannot be
    read has a record in neither list. *)
Lemma C4_counterexample :
  List.map filename
    (App.stt_records
       (App.process_files App.DUAL 50 [Demo.upload_a; Demo.upload_bad]))
  = [lit "a.wav"] /\
  List.map filename
    (App.gemini_records
       (App.process_files App.DUAL 50 [Demo.upload_a; Demo.upload_bad]))
  = [lit "a.wav"] /\
  App.errors (App.process_files App.DUAL 50 [Demo.upload_a; Demo.upload_bad])
  = [lit "無法讀取 bad.wav 的音訊資訊"].
Proof. repeat split; closed. Qed.

(** ** The in-place sort of the merged document *)

Section Sorting.
Import App.

Lemma insert_by_datetime_perm (r : record) (sorted : list record) :
  Permutation (insert_by_datetime r sorted) (r :: sorted).
Proof.
  induction sorted as [| x rest IH]; [reflexivity |].
  cbn [insert_by_datetime]. destruct (datetime r <=? datetime x); [reflexivity |].
  rewrite IH. apply perm_swap.
Qed.

Lemma sort_by_datetime_perm (records : list record) :
  Permutation (sort_by_datetime records) records.
Proof.
  induction records as [| r rest IH]; [reflexivity |].
  cbn [sort_by_datetime]. rewrite insert_by_datetime_perm. now rewrite IH.
Qed.





Lemma insert_by_datetime_aligned (r r' : record) (l l' : list record) :
  aligned r r' -> Forall2 aligned l l' ->
  Forall2 aligned (insert_by_datetime r l) (insert_by_datetime r' l').
Proof.
  intros Hr. induction 1 as [| x x' l l' Hx Hl IH]; cbn [insert_by_datetime].
  - apply Forall2_cons_2; [exact Hr | apply Forall2_nil_2].
  - destruct Hr as (Hf & Hd & Hq). destruct Hx as (Hxf & Hxd & Hxq).
    rewrite <- Hd, <- Hxd.
    destruct (datetime r <=? datetime x).
    + apply Forall2_cons_2; [now repeat split |].
      apply Forall2_cons_2; [now repeat split | exact Hl].
    + apply Forall2_cons_2; [now repeat split | exact IH].
Qed.

Lemma sort_by_datetime_aligned (l l' : list record) :
  Forall2 aligned l l' ->
  Forall2 aligned (sort_by_datetime l) (sort_by_datetime l').
Proof.
  induction 1 as [| x x' l l' Hx Hl IH]; [apply Forall2_nil_2 |].
  cbn [sort_by_datetime]. now apply insert_by_datetime_aligned.
Qed.

End Sorting.

(** ** Arithmetic of the offsets *)

Lemma py_int_mono (x y : Q) : (0 <= x)%Q -> (x <= y)%Q -> py_int x <= py_int y.
Proof.
  intros Hx Hxy. rewrite !py_int_floor; [| lra | lra].
  now apply Qfloor_resp_le.
Qed.



Lemma py_int_le (x : Q) : (0 <= x)%Q -> (inject_Z (py_int x) <= x)%Q.
Proof. intros H. rewrite py_int_floor by exact H. apply Qfloor_le. Qed.

Lemma share_nonneg (d : Q) (n : nat) :
  (0 <= d)%Q -> (0 < n)%nat -> (0 <= d / inject_Z (Z.of_nat n))%Q.
Proof.
  intros Hd Hn. apply Qle_shift_div_l; [now apply inject_nat_pos | lra].
Qed.

Lemma scaled_mono (a b : nat) (q : Q) :
  (a <= b)%nat -> (0 <= q)%Q ->
  (inject_Z (Z.of_nat a) * q <= inject_Z (Z.of_nat b) * q)%Q.
Proof.
  intros Hab Hq. apply Qmult_le_compat_r; [| exact Hq].
  rewrite <- Zle_Qle. lia.
Qed.

Lemma scaled_within (k n : nat) (d : Q) :
  (k <= n)%nat -> (0 < n)%nat -> (0 <= d)%Q ->
  (inject_Z (Z.of_nat k) * (d / inject_Z (Z.of_nat n)) <= d)%Q.
Proof.
  intros Hk Hn Hd.
  eapply Qle_trans; [apply (scaled_mono k n); [exact Hk | now apply share_nonneg] |].
  rewrite Qmult_div_r; [apply Qle_refl |].
  intros E. pose proof (inject_nat_pos n Hn) as P. rewrite E in P.
  discriminate P.
Qed.


(** ** Dates that stay within the calendar *)

Lemma datetime_add_Return (dt delta : Z) :
  datetime_min <= dt + delta <= datetime_max ->
  datetime_add dt delta = Return (dt + delta).
Proof.
  intros H. unfold datetime_add. cbv zeta.
  replace ((dt + delta <? datetime_min) || (datetime_max <? dt + delta))
    with false
    by (symmetry; apply orb_false_iff; split; apply Z.ltb_ge; lia).
  reflexivity.
Qed.


Lemma offsets_within (r : record) (n k : nat) :
  within_calendar r -> (0 < n)%nat -> (k < n)%nat ->
  let off := py_int (inject_Z (Z.of_nat k)
                     * (duration_sec r / inject_Z (Z.of_nat n)))%Q in
  0 <= off <= datetime_max - datetime_min /\
  datetime_min <= datetime r + off <= datetime_max.
Proof.
  intros (Hmin & Hd & Hmax) Hn Hk off.
  pose proof (share_nonneg (duration_sec r) n Hd Hn) as Hq.
  assert (H0 : (0 <= inject_Z (Z.of_nat k)
                     * (duration_sec r / inject_Z (Z.of_nat n)))%Q).
  { apply Qmult_le_0_compat; [| exact Hq]. rewrite <- (Zle_Qle 0). lia. }
  assert (Hlo : 0 <= off).
  { subst off. change 0 with (py_int 0).
    apply py_int_mono; [apply Qle_refl | exact H0]. }
  assert (Hhi : (inject_Z off <= duration_sec r)%Q).
  { subst off. eapply Qle_trans; [apply py_int_le; exact H0 |].
    apply scaled_within; [lia | exact Hn | exact Hd]. }
  assert (Hsum : datetime r + off <= datetime_max).
  { rewrite Zle_Qle, inject_Z_plus. lra. }
  lia.
Qed.

Lemma within_calendar_formattable (r : record) :
  within_calendar r -> formattable (duration_sec r) = true.
Proof.
  intros (Hmin & Hd & Hmax). apply formattable_bound; [exact Hd |].
  assert (H : (inject_Z datetime_min <= inject_Z (datetime r))%Q)
    by (now rewrite <- Zle_Qle).
  unfold datetime_min, datetime_max in *.
  change (inject_Z (-62135596800)) with (-62135596800)%Q in H.
  change (inject_Z 253402300799) with 253402300799%Q in Hmax. lra.
Qed.

(** ** The merged document *)

Section Merged.
Import App.

Lemma alternation_app (n m : nat) :
  forall toggle,
    alternation toggle (n + m)
    = alternation toggle n ++ alternation (Nat.iter n negb toggle) m.
Proof.
  induction n as [| n IH]; intros toggle; [reflexivity |].
  cbn [Nat.add alternation app]. rewrite (IH (negb toggle)).
  now rewrite Nat.iter_succ_r.
Qed.

Lemma speakers_app (xs ys : list line) :
  speakers (xs ++ ys) = speakers xs ++ speakers ys.
Proof. apply flat_map_app. Qed.

Lemma timestamps_app (xs ys : list line) :
  timestamps (xs ++ ys) = timestamps xs ++ timestamps ys.
Proof. apply flat_map_app. Qed.

Lemma utterances_speakers (base_time : Z) (interval : Q) (dialogues : list str) :
  forall i toggle,
    speakers (utterances base_time interval i dialogues toggle)
    = alternation toggle (List.length dialogues).
Proof.
  induction dialogues as [| d rest IH]; intros i toggle; [reflexivity |].
  cbn [utterances List.length alternation]. unfold speakers in *.
  cbn [flat_map app]. now rewrite IH.
Qed.

Lemma utterances_timestamps (base_time : Z) (interval : Q) (dialogues : list str) :
  forall i toggle,
    timestamps (utterances base_time interval i dialogues toggle)
    = List.map (fun k => base_time + py_int (inject_Z (Z.of_nat k) * interval)%Q)
               (seq i (List.length dialogues)).
Proof.
  induction dialogues as [| d rest IH]; intros i toggle; [reflexivity |].
  cbn [utterances List.length seq List.map]. unfold timestamps in *.
  cbn [flat_map app]. now rewrite IH.
Qed.

(** When no date overflows, the loop over the utterances returns the lines
    of [utterances]. *)
Lemma emit_dialogues_within (base_time : Z) (interval : Q) (dialogues : list str) :
  forall i toggle,
    (forall k, (i <= k < i + List.length dialogues)%nat ->
       0 <= py_int (inject_Z (Z.of_nat k) * interval)%Q
         <= datetime_max - datetime_min /\
       datetime_min
       <= base_time + py_int (inject_Z (Z.of_nat k) * interval)%Q
       <= datetime_max) ->
    emit_dialogues base_time interval i dialogues toggle
    = Return (utterances base_time interval i dialogues toggle,
              Nat.iter (List.length dialogues) negb toggle).
Proof.
  induction dialogues as [| d rest IH]; intros i toggle H; [reflexivity |].
  cbn [emit_dialogues utterances List.length].
  destruct (H i ltac:(cbn [List.length]; lia)) as (Hoff & Hsum).
  rewrite timedelta_Return
    by (unfold datetime_max, datetime_min in Hoff; lia).
  rewrite bind_Return, (datetime_add_Return _ _ Hsum), bind_Return.
  rewrite (IH (S i) (negb toggle))
    by (intros k Hk; apply H; cbn [List.length]; lia).
  rewrite bind_Return. cbv beta iota.
  now rewrite Nat.iter_succ_r.
Qed.

Lemma emit_record_within (r : record) (toggle : bool) :
  within_calendar r ->
  let dialogues := split_dialogues (transcript r) in
  exists text,
    format_duration (duration_sec r) = Return text /\
    emit_record r toggle
    = Return (utterances (datetime r)
                (duration_sec r
                 / inject_Z (Z.of_nat (Nat.max (List.length dialogues) 1)))
                0 dialogues toggle
              ++ [Plain (nl ++ rule "─" 60);
                  Plain (lit "[來源: " ++ filename r ++ lit " | 長度: "
                         ++ text ++ lit "]");
                  Plain (rule "─" 60 ++ nl)],
              Nat.iter (List.length dialogues) negb toggle).
Proof.
  intros W dialogues.
  destruct (formattable_Return _ (within_calendar_formattable r W))
    as (text & E).
  exists text. split; [exact E |].
  unfold emit_record. fold dialogues.
  rewrite truediv_pos by (apply inject_nat_pos; lia).
  rewrite bind_Return.
  rewrite emit_dialogues_within.
  - rewrite bind_Return. cbv beta iota. rewrite E, bind_Return. reflexivity.
  - intros k Hk. apply (offsets_within r _ k W); lia.
Qed.

Lemma emit_record_speakers (r : record) (toggle : bool) :
  within_calendar r ->
  let n := List.length (split_dialogues (transcript r)) in
  exists ls,
    emit_record r toggle = Return (ls, Nat.iter n negb toggle) /\
    speakers ls = alternation toggle n.
Proof.
  intros W n.
  destruct (emit_record_within r toggle W) as (text & _ & E).
  eexists. split; [exact E |].
  rewrite speakers_app, utterances_speakers. apply app_nil_r.
Qed.

Lemma emit_records_speakers (records : list record) :
  Forall within_calendar records ->
  forall toggle, exists ls,
    emit_records records toggle = Return ls /\
    speakers ls = alternation toggle (utterance_count records).
Proof.
  induction 1 as [| r rest W _ IH]; intros toggle.
  - exists []. split; reflexivity.
  - cbn [emit_records].
    destruct (emit_record_speakers r toggle W) as (ls & -> & Hs).
    rewrite bind_Return.
    destruct (IH (Nat.iter (List.length (split_dialogues (transcript r)))
                           negb toggle)) as (more & -> & Hm).
    rewrite bind_Return. eexists. split; [reflexivity |].
    rewrite speakers_app, Hs, Hm.
    unfold utterance_count. cbn [List.map list_sum].
    symmetry. apply alternation_app.
Qed.

Lemma alternation_length (n : nat) :
  forall toggle, List.length (alternation toggle n) = n.
Proof.
  induction n as [| n IH]; intros toggle; [reflexivity |].
  cbn [alternation List.length]. now rewrite IH.
Qed.



Lemma utterance_count_cons (r : record) (records : list record) :
  utterance_count (r :: records)
  = (List.length (split_dialogues (transcript r)) + utterance_count records)%nat.
Proof. reflexivity. Qed.

Lemma utterance_count_insert (r : record) (sorted : list record) :
  utterance_count (insert_by_datetime r sorted) = utterance_count (r :: sorted).
Proof.
  induction sorted as [| x rest IH]; [reflexivity |].
  cbn [insert_by_datetime]. destruct (datetime r <=? datetime x); [reflexivity |].
  rewrite (utterance_count_cons x), IH, !utterance_count_cons. lia.
Qed.

Lemma utterance_count_sort (records : list record) :
  utterance_count (sort_by_datetime records) = utterance_count records.
Proof.
  induction records as [| r rest IH]; [reflexivity |].
  cbn [sort_by_datetime].
  now rewrite utterance_count_insert, !utterance_count_cons, IH.
Qed.

Lemma generate_merged_content_speakers (records : list record) :
  Forall within_calendar records ->
  formattable (sum_durations records) = true ->
  exists ls,
    generate_merged_content records = Return ls /\
    speakers ls = alternation true (utterance_count records).
Proof.
  intros W F. unfold generate_merged_content. cbv zeta.
  destruct (formattable_Return _ F) as (total_text & ->).
  rewrite bind_Return.
  destruct (emit_records_speakers (sort_by_datetime records)) with (toggle := true)
    as (body & -> & Hs).
  { eapply Permutation_Forall; [| exact W].
    symmetry. apply sort_by_datetime_perm. }
  rewrite bind_Return. eexists. split; [reflexivity |].
  rewrite !speakers_app, Hs, utterance_count_sort. apply app_nil_r.
Qed.

End Merged.




(** ** Conversion failures *)

Lemma stt_working_path_fallback (w : App.World) (message : str) :
  App.convert_audio_to_standard_format w WAV = (false, message) ->
  App.stt_working_path w = Uploaded.
Proof.
  intros Hc. unfold App.stt_working_path.
  destruct (App.check_audio_quality w) as [needs_conversion warnings].
  destruct (App.is_true needs_conversion); [| reflexivity].
  rewrite Hc. reflexivity.
Qed.

(** C3 (amended). On the recognizer path a failed conversion makes the
    function go on with the uploaded file: the transcript is whatever the
    recognition of the original audio gives.  On the generative path a
    failed conversion ends the transcription at once with the error text
    "[Gemini 錯誤: 音訊轉換失敗 - ...]", which the report's heuristic counts as
    a failure; the model is not consulted. *)
Theorem C3_conversion_failure_by_backend :
  (forall (w : App.World) (max_chunk_duration : Z) (message : str),
     App.is_true (fst (App.check_audio_quality w)) = true ->
     App.convert_audio_to_standard_format w WAV = (false, message) ->
     App.stt_working_path w = Uploaded /\
     App.transcribe_google_stt w max_chunk_duration
     = match App.stt_recognize w Uploaded max_chunk_duration with
       | Return result => result
       | Raise error_msg => App.stt_except error_msg
       end) /\
  (forall (w : App.World) (message : str),
     App.convert_audio_to_standard_format w M4A = (false, message) ->
     App.transcribe_gemini w = App.gemini_conversion_failed message /\
     App.is_error (App.transcribe_gemini w) = true).
Proof.
  split.
  - intros w m message _ Hc.
    pose proof (stt_working_path_fallback w message Hc) as Hp.
    split; [exact Hp |].
    unfold App.transcribe_google_stt. rewrite Hp. reflexivity.
  - intros w message Hc.
    assert (E : App.transcribe_gemini w = App.gemini_conversion_failed message).
    { unfold App.transcribe_gemini. rewrite Hc. reflexivity. }
    split; [exact E |].
    rewrite E. apply is_error_gemini_conversion_failed.
Qed.

Lemma C3_witness :
  App.stt_working_path Demo.unconvertible = Uploaded /\
  App.transcribe_google_stt Demo.unconvertible 50
  = match App.stt_recognize Demo.unconvertible Uploaded 50 with
    | Return result => result
    | Raise error_msg => App.stt_except error_msg
    end.
Proof.
  destruct C3_conversion_failure_by_backend as (H & _).
  apply (H Demo.unconvertible 50 (lit "轉換失敗：Invalid data found")).
  - closed.
  - closed.
Defined.

(** C3 as stated fails on the generative path: the upload that ffmpeg
    cannot convert is transcribed from the original by the recognizer, but
    the generative path returns an error text for it although the model
    would have answered. *)
Lemma C3_counterexample :
  App.transcribe_google_stt Demo.unconvertible 50 = lit "列車進站" /\
  App.generate_content Demo.unconvertible Uploaded = Return (Some (lit "列車進站")) /\
  App.transcribe_gemini Demo.unconvertible
  = lit "[Gemini 錯誤: 音訊轉換失敗 - 轉換失敗：Invalid data found]" /\
  App.is_error (App.transcribe_gemini Demo.unconvertible) = true.
Proof. repeat split; closed. Qed.

(** * Further properties of the code *)

(** ** What the transcription functions can return *)

Lemma lit_bracket : lit "[" = [0x5B]%N.
Proof. closed. Qed.

Lemma has_nonspace_truthy (s : str) : has_nonspace s = true -> truthy s = true.
Proof. destruct s; [discriminate | reflexivity]. Qed.

Lemma has_nonspace_NO_CONTENT : has_nonspace NO_CONTENT = true.
Proof. closed. Qed.

Lemma is_error_nonspace (s : str) : App.is_error s = true -> has_nonspace s = true.
Proof.
  unfold App.is_error. rewrite lit_bracket. intros H.
  apply andb_true_iff in H as [H _].
  destruct s as [| c s]; [discriminate H |].
  cbn [startswith] in H. apply andb_true_iff in H as [H _].
  apply N.eqb_eq in H. subst c. apply has_nonspace_cons. reflexivity.
Qed.

Lemma merge_transcripts_nonblank (transcripts : list str) :
  has_nonspace (App.merge_transcripts transcripts) = true.
Proof.
  unfold App.merge_transcripts. rewrite str_eqb_nil, truthy_strip.
  destruct (truthy (join0 transcripts));
    destruct (has_nonspace (join0 transcripts)) eqn:E;
    cbn [negb orb]; first [exact has_nonspace_NO_CONTENT | exact E].
Qed.

Lemma stt_recognize_truthy (w : App.World) (p : path) (m : Z) (result : str) :
  App.stt_recognize w p m = Return result -> truthy result = true.
Proof.
  unfold App.stt_recognize.
  destruct (App.speech_client w) as [u | e];
    [rewrite bind_Return | rewrite bind_Raise; discriminate].
  destruct (App.from_file w p) as [len_ms | e];
    [rewrite bind_Return | rewrite bind_Raise; discriminate].
  destruct (App.getsize w p) as [file_size | e];
    [rewrite bind_Return | rewrite bind_Raise; discriminate].
  destruct ((len_ms <=? 1000 * m) && (file_size <=? App.max_size_bytes)).
  - destruct (App.recognize w (WholeFile p)) as [results | e];
      [rewrite bind_Return | rewrite bind_Raise; discriminate].
    cbv zeta. intros [= <-].
    destruct (join0 results); cbn [truthy]; [| reflexivity].
    apply has_nonspace_truthy, has_nonspace_NO_CONTENT.
  - destruct (split_chunks len_ms (m * 1000)) as [chunks | e];
      [rewrite bind_Return | rewrite bind_Raise; discriminate].
    intros [= <-]. apply has_nonspace_truthy, merge_transcripts_nonblank.
Qed.

Lemma alt_stt_recognize_nonblank
    (w : App.World) (p : path) (m : Z) (result : str) :
  AppAlt.stt_recognize w p m = Return result -> has_nonspace result = true.
Proof.
  unfold AppAlt.stt_recognize.
  destruct (App.speech_client w) as [u | e];
    [rewrite bind_Return | rewrite bind_Raise; discriminate].
  destruct (App.from_file w p) as [len_ms | e];
    [rewrite bind_Return | rewrite bind_Raise; discriminate].
  cbv zeta.
  destruct (split_chunks len_ms (m * 1000)) as [chunks | e];
    [rewrite bind_Return | rewrite bind_Raise; discriminate].
  destruct (AppAlt.recognize_chunks w p chunks) as [transcripts | e];
    [rewrite bind_Return | rewrite bind_Raise; discriminate].
  intros [= <-]. rewrite alt_merge.
  destruct (has_nonspace (join0 transcripts)) eqn:E;
    [exact E | exact has_nonspace_NO_CONTENT].
Qed.

(** X1. The recognizer path never hands back an empty transcript: whatever
    the tools and the backend do, the full variant returns a non-empty
    string, and the alternate variant a string with at least one character
    that is not white space. *)
Theorem X1_recognizer_transcript_never_empty
    (w : App.World) (audio_path : path) (max_chunk_duration : Z) :
  truthy (App.transcribe_google_stt w max_chunk_duration) = true /\
  has_nonspace (AppAlt.transcribe_google_stt w audio_path max_chunk_duration)
  = true.
Proof.
  split.
  - unfold App.transcribe_google_stt.
    destruct (App.stt_recognize w (App.stt_working_path w) max_chunk_duration)
      as [result | e] eqn:E.
    + exact (stt_recognize_truthy _ _ _ _ E).
    + apply has_nonspace_truthy, is_error_nonspace, is_error_stt_except.
  - unfold AppAlt.transcribe_google_stt.
    destruct (AppAlt.stt_recognize w audio_path max_chunk_duration)
      as [result | e] eqn:E.
    + exact (alt_stt_recognize_nonblank _ _ _ _ E).
    + rewrite has_nonspace_app.
      replace (has_nonspace (lit "[STT 錯誤: ")) with true by (symmetry; closed).
      reflexivity.
Qed.

Lemma is_error_gemini_except (e : str) : App.is_error (App.gemini_except e) = true.
Proof.
  unfold App.gemini_except.
  destruct (contains (lit "api key") (lower e)
            || contains (lit "api_key") (lower e)); [closed |].
  destruct (contains (lit "quota") (lower e) || contains (lit "429") e);
    [closed |].
  destruct (contains (lit "permission") (lower e)); [closed |].
  apply is_error_app. closed.
Qed.

Lemma is_error_gemini_gen_except (e : str) :
  App.is_error (App.gemini_gen_except e) = true.
Proof.
  unfold App.gemini_gen_except.
  destruct (contains (lit "quota") (lower e) || contains (lit "429") e);
    [closed |].
  destruct (contains (lit "unsupported") (lower e)
            || contains (lit "invalid") (lower e));
    [apply is_error_app; closed |].
  destruct (contains (lit "safety") (lower e)); [closed |].
  apply is_error_app. closed.
Qed.

Lemma is_error_gemini_too_large (w : App.World) (file_size : Z) :
  App.is_error (App.gemini_too_large w file_size) = true.
Proof. unfold App.gemini_too_large. apply is_error_app. closed. Qed.

(** X2. The generative path returns one of three things: a bracketed error
    text that the report's heuristic counts as a failure, the sentinel for
    unrecognizable content, or the model's non-empty answer with the white
    space at both ends removed. *)
Theorem X2_gemini_result_cases (w : App.World) :
  App.is_error (App.transcribe_gemini w) = true \/
  App.transcribe_gemini w = NO_CONTENT \/
  exists text,
    App.generate_content w (Converted M4A) = Return (Some text) /\
    truthy text = true /\
    App.transcribe_gemini w = strip text.
Proof.
  unfold App.transcribe_gemini.
  destruct (App.convert_audio_to_standard_format w M4A) as [success message].
  destruct success; cbn [negb];
    [| left; apply is_error_gemini_conversion_failed].
  unfold App.gemini_generate.
  destruct (App.genai_model w) as [u | e];
    [rewrite bind_Return | rewrite bind_Raise; left; apply is_error_gemini_except].
  destruct (App.getsize w (Converted M4A)) as [file_size | e];
    [rewrite bind_Return | rewrite bind_Raise; left; apply is_error_gemini_except].
  destruct (App.gemini_limit_bytes <? file_size);
    [left; apply is_error_gemini_too_large |].
  destruct (App.generate_content w (Converted M4A)) as [[text |] | e].
  - destruct text as [| c text].
    + right; left. reflexivity.
    + right; right. exists (c :: text). repeat split.
  - right; left. reflexivity.
  - left. apply is_error_gemini_gen_except.
Qed.

(** X3. When the recognizer path ends in its outer exception handler, the
    transcript it returns is counted as a failure by the report's
    heuristic, in both variants; the same holds for the alternate
    variant's generative path. *)
Theorem X3_exception_texts_count_as_failures :
  (forall w m e,
     App.stt_recognize w (App.stt_working_path w) m = Raise e ->
     App.transcribe_google_stt w m = App.stt_except e /\
     App.is_error (App.transcribe_google_stt w m) = true) /\
  (forall w p m e,
     AppAlt.stt_recognize w p m = Raise e ->
     App.is_error (AppAlt.transcribe_google_stt w p m) = true) /\
  (forall w p e,
     App.genai_model w = Raise e ->
     App.is_error (AppAlt.transcribe_gemini w p) = true).
Proof.
  split; [| split].
  - intros w m e E. unfold App.transcribe_google_stt. rewrite E.
    split; [reflexivity | apply is_error_stt_except].
  - intros w p m e E. unfold AppAlt.transcribe_google_stt. rewrite E.
    apply is_error_app. closed.
  - intros w p e E. unfold AppAlt.transcribe_gemini. rewrite E, bind_Raise.
    destruct (contains (lit "400") e); [closed | apply is_error_app; closed].
Qed.

Lemma X3_witness :
  App.transcribe_google_stt Demo.no_credentials 50
  = App.stt_except (lit "Invalid service account info") /\
  App.is_error (App.transcribe_google_stt Demo.no_credentials 50) = true.
Proof.
  destruct X3_exception_texts_count_as_failures as (H & _).
  apply (H Demo.no_credentials 50 (lit "Invalid service account info")).
  closed.
Defined.

(** ** Chunk markers and the failure heuristic *)

Lemma digits_ascii (d : Decimal.uint) :
  Forall (fun c => (c < 0x80)%N) (digits d).
Proof.
  induction d; cbn [digits]; first [apply Forall_nil_2 | apply Forall_cons_2];
    first [reflexivity | exact IHd].
Qed.

(** A needle whose first character does not occur is not found. *)
Lemma contains_absent (a : char) (p s : str) :
  Forall (fun c => c <> a) s -> contains (a :: p) s = false.
Proof.
  induction 1 as [| c s Hc _ IH]; [reflexivity |].
  cbn [contains startswith]. rewrite IH.
  unfold char_eqb. destruct (N.eqb_spec a c); [congruence | reflexivity].
Qed.

Lemma lit_error_word : lit "錯誤" = [0x932F; 0x8AA4]%N.
Proof. closed. Qed.

Lemma marker_not_error (idx : nat) (kind : str) :
  Forall (fun c => c <> 0x932F%N) kind ->
  App.is_error (lit "[第" ++ str_of_nat (idx + 1) ++ kind) = false.
Proof.
  intros Hk. unfold App.is_error. rewrite lit_error_word, contains_absent.
  - apply andb_false_r.
  - rewrite lit_chunk_open. apply Forall_app. split.
    + repeat (apply Forall_cons_2; [discriminate |]). apply Forall_nil_2.
    + apply Forall_app. split; [| exact Hk].
      eapply Forall_impl; [apply digits_ascii |].
      intros c Hc ->. discriminate Hc.
Qed.

Ltac no_error_word :=
  vm_compute; repeat (apply Forall_cons_2; [discriminate |]); apply Forall_nil_2.

(** X4. None of the three per-chunk markers of the full variant, whatever
    the chunk's position, is counted as a failure by the report's
    heuristic; neither is the sentinel. *)
Theorem X4_chunk_markers_are_not_errors (idx : nat) :
  App.is_error (App.chunk_too_large idx) = false /\
  App.is_error (App.chunk_quota idx) = false /\
  App.is_error (App.chunk_failed idx) = false /\
  (forall e, App.is_error (App.chunk_except idx e) = false) /\
  App.is_error NO_CONTENT = false.
Proof.
  assert (H1 : App.is_error (App.chunk_quota idx) = false).
  { apply marker_not_error. no_error_word. }
  assert (H2 : App.is_error (App.chunk_failed idx) = false).
  { apply marker_not_error. no_error_word. }
  split; [apply marker_not_error; no_error_word |].
  split; [exact H1 |]. split; [exact H2 |].
  split; [| exact is_error_NO_CONTENT].
  intros e. unfold App.chunk_except.
  destruct (contains (lit "quota") (lower e)); assumption.
Qed.

(** ** Size of the error texts *)

Lemma length_wrapped (open close body : str) (n a b : nat) :
  List.length open = a -> List.length close = b ->
  (List.length (open ++ prefix n body ++ close) <= a + n + b)%nat.
Proof.
  intros <- <-. rewrite !length_app. unfold prefix.
  pose proof (firstn_le_length n body). lia.
Qed.

Ltac bounded_literal := vm_compute; lia.

Ltac bounded_wrapped :=
  eapply Nat.le_trans;
  [ eapply length_wrapped; vm_compute; reflexivity | vm_compute; lia ].

(** X5. The exception handlers cut the exception's text before they put
    it in a transcript, so the error texts are bounded whatever the
    exception says: at most 110 characters on the recognizer path, 163 from
    the generative path's outer handler and 135 from its inner one; a
    conversion message has at most 205 characters. *)
Theorem X5_error_texts_are_bounded :
  (forall e, (List.length (App.stt_except e) <= 110)%nat) /\
  (forall e, (List.length (App.gemini_except e) <= 163)%nat) /\
  (forall e, (List.length (App.gemini_gen_except e) <= 135)%nat) /\
  (forall w,
     (List.length (snd (App.convert_audio_to_standard_format w WAV)) <= 205)%nat /\
     (List.length (snd (App.convert_audio_to_standard_format w M4A)) <= 205)%nat).
Proof.
  split; [| split; [| split]].
  - intros e. unfold App.stt_except.
    destruct (contains (lit "quota") (lower e)); [bounded_literal |].
    destruct (contains (lit "invalid") (lower e)); [bounded_literal |].
    destruct (contains (lit "duration limit") (lower e)
              || contains (lit "too long") (lower e)); [bounded_literal |].
    bounded_wrapped.
  - intros e. unfold App.gemini_except.
    destruct (contains (lit "api key") (lower e)
              || contains (lit "api_key") (lower e)); [bounded_literal |].
    destruct (contains (lit "quota") (lower e) || contains (lit "429") e);
      [bounded_literal |].
    destruct (contains (lit "permission") (lower e)); [bounded_literal |].
    bounded_wrapped.
  - intros e. unfold App.gemini_gen_except.
    destruct (contains (lit "quota") (lower e) || contains (lit "429") e);
      [bounded_literal |].
    destruct (contains (lit "unsupported") (lower e)
              || contains (lit "invalid") (lower e)); [bounded_wrapped |].
    destruct (contains (lit "safety") (lower e)); [bounded_literal |].
    bounded_wrapped.
  - intros w. unfold App.convert_audio_to_standard_format.
    split.
    + destruct (App.ffmpeg w WAV) as [returncode stderr | | msg]; cbn [snd].
      * destruct (returncode =? 0); cbn [snd]; [bounded_literal |].
        rewrite <- (app_nil_r (prefix 200 stderr)). bounded_wrapped.
      * bounded_literal.
      * rewrite <- (app_nil_r (prefix 200 msg)). bounded_wrapped.
    + destruct (App.ffmpeg w M4A) as [returncode stderr | | msg]; cbn [snd].
      * destruct (returncode =? 0); cbn [snd]; [bounded_literal |].
        rewrite <- (app_nil_r (prefix 200 stderr)). bounded_wrapped.
      * bounded_literal.
      * rewrite <- (app_nil_r (prefix 200 msg)). bounded_wrapped.
Qed.

(** ** The audio tools *)

(** X6. [check_audio_quality] asks for a conversion exactly when it gives
    at least one warning; it gives at most two, a low-sample-rate warning
    only carries a rate below 16000 Hz, and when ffprobe cannot be run or
    read it asks for nothing and warns of nothing. *)
Theorem X6_conversion_requested_iff_warned (w : App.World) :
  let result := App.check_audio_quality w in
  (App.is_true (fst result) = true <-> snd result <> []) /\
  (List.length (snd result) <= 2)%nat /\
  (forall rate, In (App.LowSampleRate rate) (snd result) -> rate < 16000) /\
  (forall e, App.ffprobe_streams w = Raise e -> result = (Some false, [])).
Proof.
  unfold App.check_audio_quality.
  destruct (App.ffprobe_streams w) as [[| audio_stream streams] | e]; cbv zeta.
  - cbn [fst snd App.is_true List.length]. repeat split; try lia; try easy.
  - destruct (str_eqb (App.codec_name audio_stream) (lit "adpcm_ima_wav"));
      destruct (App.sample_rate audio_stream <? 16000) eqn:R;
      cbn [fst snd App.is_true orb app List.length];
      (split; [split; [discriminate || reflexivity || (intros; discriminate)
                      | discriminate || reflexivity || (intros; congruence) ] |]);
      (split; [lia |]);
      (split; [| intros e E; discriminate E]);
      intros rate Hin; cbn [In] in Hin;
      repeat match goal with
             | H : _ \/ _ |- _ => destruct H
             | H : False |- _ => destruct H
             | H : App.CompressedCodec = _ |- _ => discriminate H
             | H : App.LowSampleRate _ = App.LowSampleRate _ |- _ =>
               injection H as <-; apply Z.ltb_lt; exact R
             end.
  - cbn [fst snd App.is_true List.length]. repeat split; try lia; try easy.
Qed.

(** X7. A conversion succeeds exactly when the target format is one of the
    two supported ones and ffmpeg exits with code 0; for any other target
    format it fails without running ffmpeg, and a timeout or any other
    exception of the run is a failure, never an exception of the
    function. *)
Theorem X7_conversion_succeeds_iff_exit_code_zero
    (w : App.World) (fmt : target_format) :
  (fst (App.convert_audio_to_standard_format w fmt) = true <->
   (fmt = WAV \/ fmt = M4A) /\ exists stderr, App.ffmpeg w fmt = App.Exited 0 stderr) /\
  (forall name w',
     App.convert_audio_to_standard_format w (OtherFormat name)
     = App.convert_audio_to_standard_format w' (OtherFormat name)).
Proof.
  split.
  - unfold App.convert_audio_to_standard_format.
    destruct fmt as [| | name].
    + destruct (App.ffmpeg w WAV) as [returncode stderr | | msg]; cbn [fst].
      * destruct (returncode =? 0) eqn:E; cbn [fst].
        -- apply Z.eqb_eq in E. subst. split; [| reflexivity].
           intros _. split; [now left | now exists stderr].
        -- apply Z.eqb_neq in E. split; [discriminate |].
           intros (_ & err & [= H _]). contradiction.
      * split; [discriminate | intros (_ & err & H); discriminate H].
      * split; [discriminate | intros (_ & err & H); discriminate H].
    + destruct (App.ffmpeg w M4A) as [returncode stderr | | msg]; cbn [fst].
      * destruct (returncode =? 0) eqn:E; cbn [fst].
        -- apply Z.eqb_eq in E. subst. split; [| reflexivity].
           intros _. split; [now right | now exists stderr].
        -- apply Z.eqb_neq in E. split; [discriminate |].
           intros (_ & err & [= H _]). contradiction.
      * split; [discriminate | intros (_ & err & H); discriminate H].
      * split; [discriminate | intros (_ & err & H); discriminate H].
    + cbn [fst]. split; [discriminate |].
      intros ([H | H] & _); discriminate H.
  - intros name w'. reflexivity.
Qed.

(** X8. When [get_audio_info] returns a non-zero duration, the file exists
    and is not empty, ffprobe has exited with code 0, and the value is the
    duration that ffprobe reported; in every other case the function
    returns 0 instead of raising. *)
Theorem X8_nonzero_duration_is_probed (w : App.World) :
  Qeq_bool (App.get_audio_info w) 0 = false ->
  App.file_exists w = true /\
  (exists file_size, App.getsize w Uploaded = Return file_size /\ file_size <> 0) /\
  App.ffprobe_format w = Return (0, Return (App.get_audio_info w)).
Proof.
  unfold App.get_audio_info.
  destruct (App.file_exists w); cbn [negb]; [| discriminate].
  destruct (App.getsize w Uploaded) as [file_size | e]; [| discriminate].
  destruct (file_size =? 0) eqn:S; [discriminate |].
  destruct (App.ffprobe_format w) as [[returncode duration] | e];
    [| discriminate].
  destruct (returncode =? 0) eqn:R; cbn [negb]; [| discriminate].
  destruct duration as [d | e]; [| discriminate].
  intros _. apply Z.eqb_eq in R. apply Z.eqb_neq in S. subst returncode.
  split; [reflexivity |]. split; [now exists file_size | reflexivity].
Qed.

Lemma X8_witness :
  App.file_exists Demo.clip125 = true /\
  (exists file_size,
     App.getsize Demo.clip125 Uploaded = Return file_size /\ file_size <> 0) /\
  App.ffprobe_format Demo.clip125
  = Return (0, Return (App.get_audio_info Demo.clip125)).
Proof. apply (X8_nonzero_duration_is_probed Demo.clip125). closed. Defined.

Lemma X6_witness :
  In (App.LowSampleRate 8000) (snd (App.check_audio_quality Demo.unconvertible)) /\
  8000 < 16000.
Proof.
  assert (H : In (App.LowSampleRate 8000)
                 (snd (App.check_audio_quality Demo.unconvertible))).
  { vm_compute. left. reflexivity. }
  split; [exact H |].
  destruct (X6_conversion_requested_iff_warned Demo.unconvertible)
    as (_ & _ & Hrate & _).
  exact (Hrate 8000 H).
Defined.

Lemma X7_witness :
  (WAV = WAV \/ WAV = M4A) /\
  exists stderr, App.ffmpeg Demo.clip125 WAV = App.Exited 0 stderr.
Proof.
  destruct (X7_conversion_succeeds_iff_exit_code_zero Demo.clip125 WAV)
    as ((H & _) & _).
  apply H. closed.
Defined.

(** ** Durations as text *)

Lemma str_of_Z_digit (n : Z) : 0 <= n < 10 -> List.length (str_of_Z n) = 1%nat.
Proof.
  intros H.
  assert (K : exists k, (k < 10)%nat /\ n = Z.of_nat k).
  { exists (Z.to_nat n). lia. }
  destruct K as (k & Hk & ->).
  do 10 (destruct k as [| k]; [closed |]). lia.
Qed.

Lemma pad2_length (n : Z) : 0 <= n < 60 -> List.length (pad2 n) = 2%nat.
Proof.
  intros H. unfold pad2. destruct (n <? 10) eqn:E.
  - apply Z.ltb_lt in E. rewrite length_app, str_of_Z_digit by lia. closed.
  - apply Z.ltb_ge in E.
    assert (K : exists k, (k < 50)%nat /\ n = 10 + Z.of_nat k).
    { exists (Z.to_nat (n - 10)). lia. }
    destruct K as (k & Hk & ->).
    do 50 (destruct k as [| k]; [closed |]). lia.
Qed.

Lemma str_of_Z_two (n : Z) : 10 <= n < 60 -> List.length (str_of_Z n) = 2%nat.
Proof.
  intros H. rewrite <- (pad2_length n) by lia.
  unfold pad2. destruct (n <? 10) eqn:E; [apply Z.ltb_lt in E; lia | reflexivity].
Qed.

Lemma py_int_inject_Z (n : Z) : py_int (inject_Z n) = n.
Proof. unfold py_int, inject_Z. cbn [Qnum Qden]. apply Z.quot_1_r. Qed.

Lemma str_of_timedelta_length (n : Z) :
  (0 <= n < 36000 -> List.length (str_of_timedelta n) = 7%nat) /\
  (36000 <= n < 86400 -> List.length (str_of_timedelta n) = 8%nat).
Proof.
  assert (Hcolon : List.length (lit ":") = 1%nat) by closed.
  unfold str_of_timedelta. cbv zeta.
  split; intros Hn;
    rewrite (Z.div_small n 86400), (Z.mod_small n 86400) by lia;
    cbn [Z.eqb]; rewrite !length_app, Hcolon, !pad2_length.
  - rewrite str_of_Z_digit; [reflexivity |].
    split; [apply Z.div_pos; lia | apply Z.div_lt_upper_bound; lia].
  - apply Z.mod_pos_bound. lia.
  - apply Z.mod_pos_bound. lia.
  - rewrite str_of_Z_two; [reflexivity |].
    split; [apply Z.div_le_lower_bound; lia | apply Z.div_lt_upper_bound; lia].
  - apply Z.mod_pos_bound. lia.
  - apply Z.mod_pos_bound. lia.
Qed.

(** X9. [format_duration] only looks at the whole seconds of its argument.
    For a duration under ten hours it returns the text H:MM:SS with a
    single hour digit, seven characters in all; from ten hours up to a day
    the text has eight.  It returns exactly when the whole seconds fit a
    [timedelta], and raises otherwise. *)
Theorem X9_format_duration_shape (seconds : Q) :
  format_duration seconds = format_duration (inject_Z (py_int seconds)) /\
  (0 <= py_int seconds < 36000 ->
   exists text,
     format_duration seconds = Return text /\ List.length text = 7%nat) /\
  (36000 <= py_int seconds < 86400 ->
   exists text,
     format_duration seconds = Return text /\ List.length text = 8%nat) /\
  (formattable seconds = true <->
   - 86399999913600 <= py_int seconds < 86400000000000).
Proof.
  split; [unfold format_duration; now rewrite py_int_inject_Z |].
  destruct (str_of_timedelta_length (py_int seconds)) as (H7 & H8).
  split; [| split; [| apply formattable_iff]]; intros Hn;
    exists (str_of_timedelta (py_int seconds));
    (split; [| auto]);
    unfold format_duration; rewrite timedelta_Return by lia;
    rewrite bind_Return; reflexivity.
Qed.

Lemma X9_witness :
  exists text, format_duration 125 = Return text /\ List.length text = 7%nat.
Proof.
  destruct (X9_format_duration_shape 125) as (_ & H & _).
  apply H. change (py_int 125) with 125. lia.
Defined.



(** ** The comparison table *)

Section Table.
Import App.

Lemma comparison_rows_total
    (indices : list nat) (stt_records gemini_records : list record) :
  Forall (fun r => formattable (duration_sec r) = true) stt_records ->
  Forall (fun i => (i < List.length stt_records)%nat
                   /\ (i < List.length gemini_records)%nat) indices ->
  exists rows,
    comparison_rows indices stt_records gemini_records = Return rows /\
    List.length rows = List.length indices.
Proof.
  intros F.
  induction 1 as [| i rest [Hs Hg] _ (rows & IH & Hlen)].
  - exists []. split; reflexivity.
  - cbn [comparison_rows].
    destruct (nth_error stt_records i) as [stt_rec |] eqn:Es;
      [| apply nth_error_None in Es; lia].
    destruct (nth_error gemini_records i) as [gemini_rec |] eqn:Eg;
      [| apply nth_error_None in Eg; lia].
    apply nth_error_In in Es.
    rewrite List.Forall_forall in F.
    destruct (formattable_Return _ (F _ Es)) as (text & ->).
    rewrite bind_Return, IH, bind_Return. eexists. split; [reflexivity |].
    cbn [List.length]. now rewrite Hlen.
Qed.

Lemma comparison_rows_index_error
    (indices : list nat) (stt_records gemini_records : list record) :
  Forall (fun r => formattable (duration_sec r) = true) stt_records ->
  Exists (fun i => (List.length gemini_records <= i)%nat) indices ->
  comparison_rows indices stt_records gemini_records
  = Raise (lit "list index out of range").
Proof.
  intros F. induction indices as [| i rest IH]; intros H.
  - apply Exists_nil in H. destruct H.
  - cbn [comparison_rows].
    destruct (nth_error stt_records i) as [stt_rec |] eqn:Es; [| reflexivity].
    destruct (nth_error gemini_records i) as [gemini_rec |] eqn:Eg;
      [| reflexivity].
    apply Exists_cons in H as [H | H].
    + apply nth_error_None in H. congruence.
    + apply nth_error_In in Es.
      rewrite List.Forall_forall in F.
      destruct (formattable_Return _ (F _ Es)) as (text & ->).
      rewrite bind_Return, (IH H). apply bind_Raise.
Qed.

Lemma comparison_data_total (stt_records gemini_records : list record) :
  Forall (fun r => formattable (duration_sec r) = true) stt_records ->
  (List.length stt_records <= List.length gemini_records)%nat ->
  exists rows,
    comparison_data stt_records gemini_records = Return rows /\
    List.length rows = List.length stt_records.
Proof.
  intros F H. unfold comparison_data.
  destruct (comparison_rows_total (seq 0 (List.length stt_records))
              stt_records gemini_records F) as (rows & E & Hlen).
  - apply List.Forall_forall. intros i Hi. apply in_seq in Hi. lia.
  - exists rows. split; [exact E |]. now rewrite Hlen, length_seq.
Qed.

Lemma firstn_formattable (n : nat) (records : list record) :
  Forall (fun r => formattable (duration_sec r) = true) records ->
  Forall (fun r => formattable (duration_sec r) = true) (firstn n records).
Proof.
  intros F. apply List.Forall_forall. intros r Hr.
  rewrite List.Forall_forall in F. apply F.
  rewrite <- (firstn_skipn n records). apply in_or_app. now left.
Qed.

Lemma comparison_tab_empty (stt_records gemini_records : list record) :
  stt_records = [] \/ gemini_records = [] ->
  comparison_tab stt_records gemini_records = Return None.
Proof.
  intros [-> | ->]; [reflexivity |]. now destruct stt_records.
Qed.

Lemma comparison_tab_total (stt_records gemini_records : list record) :
  Forall (fun r => formattable (duration_sec r) = true) stt_records ->
  stt_records <> [] ->
  (List.length stt_records <= List.length gemini_records)%nat ->
  exists rows comparison_report,
    comparison_tab stt_records gemini_records
    = Return (Some (rows, comparison_report)) /\
    generate_comparison_report stt_records gemini_records
    = Return comparison_report /\
    List.length rows = List.length stt_records.
Proof.
  intros F Hne Hlen.
  destruct (comparison_data_total stt_records gemini_records F Hlen)
    as (rows & Er & Hrows).
  destruct (generate_comparison_report_total stt_records gemini_records
              (firstn_formattable _ _ F)) as (report & Erep).
  exists rows, report.
  destruct stt_records as [| s sr]; [now destruct Hne |].
  destruct gemini_records as [| g gr]; [cbn [List.length] in Hlen; lia |].
  unfold comparison_tab. rewrite Er, bind_Return, Erep, bind_Return.
  repeat split; assumption.
Qed.

Lemma comparison_tab_index_error (stt_records gemini_records : list record) :
  Forall (fun r => formattable (duration_sec r) = true) stt_records ->
  gemini_records <> [] ->
  (List.length gemini_records < List.length stt_records)%nat ->
  comparison_tab stt_records gemini_records
  = Raise (lit "list index out of range").
Proof.
  intros F Hne Hlen.
  assert (E : comparison_data stt_records gemini_records
              = Raise (lit "list index out of range")).
  { unfold comparison_data. apply comparison_rows_index_error; [exact F |].
    apply List.Exists_exists.
    exists (List.length gemini_records). split; [| lia].
    apply in_seq. lia. }
  destruct gemini_records as [| g gr]; [now destruct Hne |].
  destruct stt_records as [| s sr]; [cbn [List.length] in Hlen; lia |].
  unfold comparison_tab. rewrite E. apply bind_Raise.
Qed.

Lemma preview_length (text : str) : (List.length (preview text) <= 103)%nat.
Proof.
  unfold preview. destruct (100 <? List.length text)%nat eqn:E.
  - rewrite length_app. unfold prefix.
    pose proof (firstn_le_length 100 text).
    replace (List.length (lit "...")) with 3%nat by (symmetry; closed). lia.
  - apply Nat.ltb_ge in E. lia.
Qed.

End Table.

(** X11. The comparison tab only warns, and builds nothing, when either
    list of records is empty.  With both lists non-empty and durations that
    [format_duration] accepts, the table is built exactly when the second
    list is at least as long as the first: it then has one row per record
    of the first list, and the report is the one of
    [generate_comparison_report]; when the second list is shorter, indexing
    it raises IndexError.  A transcript of at most 100 characters is shown
    whole in its cell, a longer one as its first 100 characters followed by
    three dots. *)
Theorem X11_comparison_table_rows
    (stt_records gemini_records : list record) :
  (stt_records = [] \/ gemini_records = [] ->
   App.comparison_tab stt_records gemini_records = Return None) /\
  (Forall (fun r => formattable (duration_sec r) = true) stt_records ->
   stt_records <> [] ->
   (List.length stt_records <= List.length gemini_records)%nat ->
   exists rows comparison_report,
     App.comparison_tab stt_records gemini_records
     = Return (Some (rows, comparison_report)) /\
     App.generate_comparison_report stt_records gemini_records
     = Return comparison_report /\
     List.length rows = List.length stt_records) /\
  (Forall (fun r => formattable (duration_sec r) = true) stt_records ->
   gemini_records <> [] ->
   (List.length gemini_records < List.length stt_records)%nat ->
   App.comparison_tab stt_records gemini_records
   = Raise (lit "list index out of range")) /\
  (forall text,
     (List.length (App.preview text) <= 103)%nat /\
     ((List.length text <= 100)%nat -> App.preview text = text) /\
     ((100 < List.length text)%nat ->
      App.preview text = prefix 100 text ++ lit "...")).
Proof.
  split; [apply comparison_tab_empty |].
  split; [apply comparison_tab_total |].
  split; [apply comparison_tab_index_error |].
  intros text. split; [apply preview_length |].
  unfold App.preview. split; intros H.
  - destruct (100 <? List.length text)%nat eqn:E; [| reflexivity].
    apply Nat.ltb_lt in E. lia.
  - destruct (100 <? List.length text)%nat eqn:E; [reflexivity |].
    apply Nat.ltb_ge in E. lia.
Qed.

Lemma X11_witness :
  exists rows comparison_report,
    App.comparison_tab [Demo.stt_a] [Demo.gemini_a; Demo.gemini_b]
    = Return (Some (rows, comparison_report)) /\
    App.generate_comparison_report [Demo.stt_a] [Demo.gemini_a; Demo.gemini_b]
    = Return comparison_report /\
    List.length rows = List.length [Demo.stt_a].
Proof.
  destruct (X11_comparison_table_rows [Demo.stt_a] [Demo.gemini_a; Demo.gemini_b])
    as (_ & H & _).
  apply H.
  - apply Forall_cons_2; [closed | apply Forall_nil_2].
  - discriminate.
  - cbn [List.length]. lia.
Defined.

(** ** The download archive *)

Section Archive.
Import App.

Lemma backend_entries_value (merged_name individual_dir : string)
    (records : list record) :
  Forall within_calendar records ->
  formattable (sum_durations records) = true ->
  exists merged_txt,
    backend_entries merged_name individual_dir records
    = Return ((lit merged_name, MergedText merged_txt)
              :: List.map (fun rec =>
                             (lit individual_dir ++ filename rec ++ lit ".txt",
                              IndividualText rec))
                          (sort_by_datetime records),
              sort_by_datetime records).
Proof.
  intros W F. unfold backend_entries.
  destruct (generate_merged_content_speakers records W F) as (ls & -> & _).
  rewrite bind_Return. eexists. reflexivity.
Qed.

Lemma has_report_individual (dir : string) (records : list record) :
  has_report (List.map (fun rec =>
                          (lit dir ++ filename rec ++ lit ".txt",
                           IndividualText rec)) records) = false.
Proof. induction records as [| r rest IH]; [reflexivity | exact IH]. Qed.

Lemma has_report_backend (name dir : string) (merged_txt : list line)
    (records : list record) :
  has_report ((lit name, MergedText merged_txt)
              :: List.map (fun rec =>
                             (lit dir ++ filename rec ++ lit ".txt",
                              IndividualText rec)) records) = false.
Proof. exact (has_report_individual dir records). Qed.

Lemma has_report_app (a b : list zip_entry) :
  has_report (a ++ b) = has_report a || has_report b.
Proof. apply existsb_app. Qed.

Lemma sort_by_datetime_length (records : list record) :
  List.length (sort_by_datetime records) = List.length records.
Proof. apply Permutation_length, sort_by_datetime_perm. Qed.

Lemma sorted_formattable (records : list record) :
  Forall within_calendar records ->
  Forall (fun r => formattable (duration_sec r) = true)
         (sort_by_datetime records).
Proof.
  intros W. eapply Permutation_Forall; [symmetry; apply sort_by_datetime_perm |].
  eapply Forall_impl; [exact W |]. apply within_calendar_formattable.
Qed.

Lemma archive_total (mode : str) (stt_records gemini_records : list record) :
  (use_stt mode && use_gemini mode = true ->
   (List.length stt_records <= List.length gemini_records)%nat) ->
  Forall within_calendar stt_records ->
  formattable (sum_durations stt_records) = true ->
  Forall within_calendar gemini_records ->
  formattable (sum_durations gemini_records) = true ->
  exists entries,
    archive mode stt_records gemini_records = Return entries /\
    has_report entries
    = use_stt mode && use_gemini mode
      && (0 <? List.length stt_records)%nat
      && (0 <? List.length gemini_records)%nat /\
    List.length entries
    = ((if use_stt mode then 1 + List.length stt_records else 0)
       + (if use_gemini mode then 1 + List.length gemini_records else 0)
       + (if has_report entries then 1 else 0))%nat.
Proof.
  intros Hlen Ws Fs Wg Fg. unfold archive.
  destruct (backend_entries_value "GoogleSTT_Merged.txt" "GoogleSTT_Individual/"
              stt_records Ws Fs) as (m1 & E1).
  destruct (backend_entries_value "Gemini_Merged.txt" "Gemini_Individual/"
              gemini_records Wg Fg) as (m2 & E2).
  pose proof (sort_by_datetime_length stt_records) as Ls.
  pose proof (sort_by_datetime_length gemini_records) as Lg.
  destruct (use_stt mode), (use_gemini mode); cbn [andb] in *;
    rewrite ?E1, ?E2, ?bind_Return; cbv beta iota;
    rewrite ?E1, ?E2, ?bind_Return; cbv beta iota.
  - specialize (Hlen eq_refl).
    destruct stt_records as [| s sr].
    + rewrite comparison_tab_empty by (left; reflexivity).
      rewrite bind_Return. eexists. split; [reflexivity |].
      rewrite !has_report_app, !has_report_backend.
      cbn [has_report existsb orb List.length Nat.ltb Nat.leb].
      split; [reflexivity |].
      rewrite !length_app. cbn [List.length]. rewrite !length_map, Ls, Lg.
      cbn [List.length]. lia.
    + destruct (comparison_tab_total (sort_by_datetime (s :: sr))
                  (sort_by_datetime gemini_records))
        as (rows & report & -> & _ & _).
      * now apply sorted_formattable.
      * intros E. rewrite E in Ls. discriminate Ls.
      * rewrite Ls, Lg. exact Hlen.
      * rewrite bind_Return. eexists. split; [reflexivity |].
        rewrite !has_report_app, !has_report_backend.
        cbn [has_report existsb snd orb].
        destruct gemini_records as [| g gr]; [cbn [List.length] in Hlen; lia |].
        cbn [List.length Nat.ltb Nat.leb].
        split; [reflexivity |].
        rewrite !length_app. cbn [List.length]. rewrite !length_map, Ls, Lg.
        cbn [List.length]. lia.
  - rewrite ?bind_Return. eexists. split; [reflexivity |].
    rewrite !has_report_app, !has_report_backend.
    cbn [has_report existsb orb app]. split; [reflexivity |].
    rewrite ?length_app. cbn [List.length].
    rewrite ?length_app, ?length_map, ?Ls. cbn [List.length]. lia.
  - rewrite ?bind_Return. eexists. split; [reflexivity |].
    rewrite !has_report_app, !has_report_backend.
    cbn [has_report existsb orb app]. split; [reflexivity |].
    rewrite ?length_app. cbn [List.length].
    rewrite ?length_app, ?length_map, ?Lg. cbn [List.length]. lia.
  - rewrite ?bind_Return. eexists. split; [reflexivity |].
    split; reflexivity.
Qed.


Lemma sum_durations_from (f g : UploadedFile -> record) (us : list UploadedFile) :
  (forall u, duration_sec (f u) = duration_sec (g u)) ->
  forall acc,
    fold_left (fun acc r => (acc + duration_sec r)%Q) (List.map f us) acc
    = fold_left (fun acc r => (acc + duration_sec r)%Q) (List.map g us) acc.
Proof.
  intros H. induction us as [| u rest IH]; intros acc; [reflexivity |].
  cbn [List.map fold_left]. rewrite H. apply IH.
Qed.

End Archive.

Lemma uploads_within_calendar
    (chunk_duration : Z) (us : list App.UploadedFile) :
  Forall on_calendar us ->
  Forall within_calendar (List.map (stt_entry chunk_duration) us) /\
  Forall within_calendar (List.map gemini_entry us).
Proof.
  induction 1 as [| u rest Hu _ (IHs & IHg)].
  - split; apply Forall_nil_2.
  - split; cbn [List.map]; apply Forall_cons_2; assumption.
Qed.

Lemma loop_records_within_calendar
    (mode : str) (chunk_duration : Z) (uploaded_files : list App.UploadedFile) :
  let st := App.process_files mode chunk_duration uploaded_files in
  Forall on_calendar (List.filter readable uploaded_files) ->
  formattable (App.sum_durations
                 (List.map gemini_entry (List.filter readable uploaded_files)))
  = true ->
  (Forall within_calendar (App.stt_records st) /\
   formattable (App.sum_durations (App.stt_records st)) = true) /\
  (Forall within_calendar (App.gemini_records st) /\
   formattable (App.sum_durations (App.gemini_records st)) = true).
Proof.
  intros st W F.
  destruct (process_files_records mode chunk_duration uploaded_files)
    as (Hs & Hg & _).
  fold st in Hs, Hg.
  destruct (uploads_within_calendar chunk_duration _ W) as (Ws & Wg).
  assert (Fs : formattable
                 (App.sum_durations
                    (List.map (stt_entry chunk_duration)
                              (List.filter readable uploaded_files))) = true).
  { unfold App.sum_durations in *.
    rewrite (sum_durations_from (stt_entry chunk_duration) gemini_entry);
      [exact F | reflexivity]. }
  rewrite Hs, Hg. split.
  - destruct (App.use_stt mode);
      [split; assumption | split; [apply Forall_nil_2 | reflexivity]].
  - destruct (App.use_gemini mode);
      [split; assumption | split; [apply Forall_nil_2 | reflexivity]].
Qed.



(** X13. Sorting two index-aligned record lists by date, as the two merged
    documents do in place, leaves them index-aligned, so the comparison
    that follows still pairs the records of the same upload; this holds in
    particular for the two lists of the dual mode. *)
Theorem X13_sorting_keeps_alignment :
  (forall stt_records gemini_records,
     Forall2 aligned stt_records gemini_records ->
     Forall2 aligned (App.sort_by_datetime stt_records)
                     (App.sort_by_datetime gemini_records)) /\
  (forall chunk_duration uploaded_files,
     let st := App.process_files App.DUAL chunk_duration uploaded_files in
     Forall2 aligned (App.sort_by_datetime (App.stt_records st))
                     (App.sort_by_datetime (App.gemini_records st))).
Proof.
  split; [exact sort_by_datetime_aligned |].
  intros chunk_duration uploaded_files st.
  apply sort_by_datetime_aligned.
  destruct (process_files_records App.DUAL chunk_duration uploaded_files)
    as (Hs & Hg & _).
  fold st in Hs, Hg. rewrite use_stt_DUAL in Hs. rewrite use_gemini_DUAL in Hg.
  rewrite Hs, Hg. apply aligned_entries.
Qed.

Lemma X13_witness :
  Forall2 aligned (App.sort_by_datetime [Demo.stt_b; Demo.stt_a])
                  (App.sort_by_datetime [Demo.gemini_b; Demo.gemini_a]).
Proof.
  destruct X13_sorting_keeps_alignment as (H & _).
  apply H.
  apply Forall2_cons_2; [| apply Forall2_cons_2; [| apply Forall2_nil_2]];
    (split; [closed | split; closed]).
Defined.

(** ** Utterances *)

Section Utterances.
Import App.

Lemma lstrip_Forall (P : char -> Prop) (s : str) :
  Forall P s -> Forall P (lstrip s).
Proof.
  induction 1 as [| c s Hc Hs IH]; [apply Forall_nil_2 |].
  cbn [lstrip]. destruct (isspace c); [exact IH | now apply Forall_cons_2].
Qed.

Lemma strip_Forall (P : char -> Prop) (s : str) :
  Forall P s -> Forall P (strip s).
Proof.
  intros H. unfold strip, rstrip.
  apply Forall_rev, lstrip_Forall, Forall_rev, lstrip_Forall, H.
Qed.

Lemma re_split_from_fragments (text : str) :
  forall cur_rev in_run,
    Forall (fun c => is_terminal c = false) cur_rev ->
    Forall (Forall (fun c => is_terminal c = false))
           (re_split_from cur_rev in_run text).
Proof.
  induction text as [| c rest IH]; intros cur_rev in_run Hcur;
    cbn [re_split_from].
  - apply Forall_cons_2; [now apply Forall_rev | apply Forall_nil_2].
  - destruct (is_terminal c) eqn:T.
    + destruct in_run; [now apply IH |].
      apply Forall_cons_2; [now apply Forall_rev |].
      apply IH, Forall_nil_2.
    + apply IH. now apply Forall_cons_2.
Qed.

Lemma split_dialogues_fragments (text : str) :
  Forall (fun d => truthy d = true /\ Forall (fun c => is_terminal c = false) d)
         (List.map strip
            (List.filter (fun s => truthy (strip s)) (re_split text))).
Proof.
  pose proof (re_split_from_fragments text [] false (Forall_nil_2 _)) as H.
  fold (re_split text) in H.
  induction H as [| s l Hs Hl IH]; [apply Forall_nil_2 |].
  cbn [List.filter]. destruct (truthy (strip s)) eqn:T; [| exact IH].
  cbn [List.map]. apply Forall_cons_2; [| exact IH].
  split; [exact T | now apply strip_Forall].
Qed.

Lemma split_dialogues_nonempty (text : str) :
  (0 < List.length (split_dialogues text))%nat.
Proof.
  unfold split_dialogues.
  destruct (if startswith (lit "[") text then []
            else List.map strip
                   (List.filter (fun s => truthy (strip s)) (re_split text)));
    cbn [List.length]; lia.
Qed.

End Utterances.

(** X14. The splitting of a transcript into utterances always gives at
    least one utterance.  A transcript that starts with '[' is kept whole
    as a single utterance, whatever punctuation it contains.  Otherwise
    each utterance is either the whole transcript (when no fragment is
    left after trimming) or a non-empty fragment free of the sentence
    terminators 。！？ and of line breaks. *)
Theorem X14_split_dialogues_utterances (text : str) :
  App.split_dialogues text <> [] /\
  (startswith (lit "[") text = true -> App.split_dialogues text = [text]) /\
  Forall (fun d =>
            d = text \/
            (truthy d = true /\ Forall (fun c => App.is_terminal c = false) d))
         (App.split_dialogues text).
Proof.
  unfold App.split_dialogues.
  destruct (startswith (lit "[") text) eqn:B.
  - split; [discriminate |]. split; [reflexivity |].
    apply Forall_cons_2; [now left | apply Forall_nil_2].
  - pose proof (split_dialogues_fragments text) as H.
    destruct (List.map strip
                (List.filter (fun s => truthy (strip s)) (App.re_split text)))
      as [| d ds].
    + split; [discriminate |]. split; [discriminate |].
      apply Forall_cons_2; [now left | apply Forall_nil_2].
    + split; [discriminate |]. split; [discriminate |].
      eapply Forall_impl; [exact H |]. cbv beta. intros x Hx. now right.
Qed.

Lemma X14_witness :
  App.split_dialogues (lit "[STT 錯誤: 音訊格式無效]。")
  = [lit "[STT 錯誤: 音訊格式無效]。"].
Proof.
  destruct (X14_split_dialogues_utterances (lit "[STT 錯誤: 音訊格式無效]。"))
    as (_ & H & _).
  apply H. closed.
Defined.

(** ** Timestamps of a record's utterances *)

Section Window.
Import App.

Lemma emit_record_timestamps (r : record) (toggle : bool) :
  within_calendar r ->
  let n := List.length (split_dialogues (transcript r)) in
  exists ls toggle',
    emit_record r toggle = Return (ls, toggle') /\
    timestamps ls
    = List.map (fun k => datetime r
                         + py_int (inject_Z (Z.of_nat k)
                                   * (duration_sec r
                                      / inject_Z (Z.of_nat (Nat.max n 1))))%Q)
               (seq 0 n).
Proof.
  intros W n.
  destruct (emit_record_within r toggle W) as (text & _ & E).
  eexists. eexists. split; [exact E |].
  rewrite timestamps_app, utterances_timestamps. apply app_nil_r.
Qed.

Lemma mapped_seq_sorted (f : nat -> Z) (n : nat) :
  (forall a b, (a <= b)%nat -> f a <= f b) ->
  forall i, StronglySorted Z.le (List.map f (seq i n)).
Proof.
  intros Hf. induction n as [| n IH]; intros i; [constructor |].
  cbn [seq List.map]. constructor; [apply IH |].
  apply List.Forall_forall. intros y Hy.
  apply in_map_iff in Hy as (k & <- & Hk). apply in_seq in Hk.
  apply Hf. lia.
Qed.

End Window.

(** X15. For a record within the calendar (a non-negative duration, and
    a date that with the duration added is still a date a [datetime] can
    hold) the merged document gives one timestamp per utterance; the
    timestamps never decrease from one utterance to the next, none is
    before the record's date, and none is more than the record's duration
    after it.  A record with at least one utterance has its first one at
    the record's date. *)
Theorem X15_timestamps_within_the_record (r : record) (toggle : bool) :
  within_calendar r ->
  exists ls toggle',
    App.emit_record r toggle = Return (ls, toggle') /\
    List.length (timestamps ls)
    = List.length (App.split_dialogues (transcript r)) /\
    StronglySorted Z.le (timestamps ls) /\
    Forall (fun ts => datetime r <= ts /\
                      (inject_Z (ts - datetime r) <= duration_sec r)%Q)
           (timestamps ls) /\
    hd_error (timestamps ls) = Some (datetime r).
Proof.
  intros W. pose proof W as (_ & Hd & _).
  destruct (emit_record_timestamps r toggle W) as (ls & toggle' & E & Ht).
  exists ls, toggle'. split; [exact E |].
  set (n := List.length (App.split_dialogues (transcript r))) in *.
  assert (Hn : (0 < n)%nat).
  { subst n. pose proof (split_dialogues_nonempty (transcript r)). lia. }
  replace (Nat.max n 1) with n in Ht by lia.
  set (q := (duration_sec r / inject_Z (Z.of_nat n))%Q) in *.
  assert (Hq : (0 <= q)%Q) by (now apply share_nonneg).
  assert (Z0 : forall k, 0 <= py_int (inject_Z (Z.of_nat k) * q)%Q).
  { intros k. change 0 with (py_int 0). apply py_int_mono; [apply Qle_refl |].
    apply Qmult_le_0_compat; [| exact Hq]. rewrite <- (Zle_Qle 0). lia. }
  rewrite Ht. split; [now rewrite length_map, length_seq |].
  split; [| split].
  - apply mapped_seq_sorted. intros a b Hab.
    apply Z.add_le_mono_l, py_int_mono.
    + apply Qmult_le_0_compat; [| exact Hq]. rewrite <- (Zle_Qle 0). lia.
    + now apply scaled_mono.
  - apply List.Forall_forall. intros ts Hts.
    apply in_map_iff in Hts as (k & <- & Hk). apply in_seq in Hk.
    split; [specialize (Z0 k); lia |].
    replace (datetime r + py_int (inject_Z (Z.of_nat k) * q)%Q - datetime r)
      with (py_int (inject_Z (Z.of_nat k) * q)%Q) by lia.
    eapply Qle_trans; [apply py_int_le |].
    + apply Qmult_le_0_compat; [| exact Hq]. rewrite <- (Zle_Qle 0). lia.
    + apply scaled_within; [lia | exact Hn | exact Hd].
  - destruct n as [| n']; [lia |]. cbn [seq List.map hd_error].
    f_equal. change (inject_Z (Z.of_nat 0)) with 0%Q.
    replace (py_int (0 * q)) with 0 by reflexivity. lia.
Qed.

Lemma X15_witness :
  exists ls toggle',
    App.emit_record Demo.ninety_seconds true = Return (ls, toggle') /\
    List.length (timestamps ls)
    = List.length (App.split_dialogues (transcript Demo.ninety_seconds)) /\
    StronglySorted Z.le (timestamps ls) /\
    Forall (fun ts => datetime Demo.ninety_seconds <= ts /\
                      (inject_Z (ts - datetime Demo.ninety_seconds)
                       <= duration_sec Demo.ninety_seconds)%Q)
           (timestamps ls) /\
    hd_error (timestamps ls) = Some (datetime Demo.ninety_seconds).
Proof.
  apply (X15_timestamps_within_the_record Demo.ninety_seconds true).
  split; [closed | split; closed].
Defined.

(** ** Laws of the character-set similarity *)

Section SimilarityLaws.
Import App.

Lemma char_set_app (a b : str) : char_set (a ++ b) = char_set a ∪ char_set b.
Proof. unfold char_set. apply list_to_set_app_L. Qed.

Lemma char_set_rev (a : str) : char_set (rev a) = char_set a.
Proof.
  unfold char_set. apply set_eq. intros c.
  rewrite !elem_of_list_to_set, !list_elem_of_In. symmetry. apply in_rev.
Qed.

Lemma char_set_nonempty (a : str) : a <> [] -> (0 < size (char_set a))%nat.
Proof.
  destruct a as [| c a]; [congruence |]. intros _.
  assert (H : size (char_set (c :: a)) <> 0%nat); [| lia].
  rewrite size_non_empty_iff. unfold char_set. cbn [list_to_set foldr].
  set_solver.
Qed.

Lemma similarity_pct_sets (a a' b b' : str) :
  char_set a = char_set a' -> char_set b = char_set b' ->
  similarity_pct a b = similarity_pct a' b'.
Proof. unfold similarity_pct. now intros -> ->. Qed.

End SimilarityLaws.

(** X16. The similarity of two transcripts does not depend on the order of
    the two, nor on the order or the repetition of characters within a
    transcript; a non-empty transcript compared with itself scores 100,
    and two transcripts without a common character score 0. *)
Theorem X16_similarity_laws (a b : str) :
  App.similarity_pct a b = App.similarity_pct b a /\
  App.similarity_pct (a ++ a) b = App.similarity_pct a b /\
  App.similarity_pct (rev a) b = App.similarity_pct a b /\
  (a <> [] -> exists q, App.similarity_pct a a = Return q /\ (q == 100)%Q) /\
  ((forall c, In c a -> ~ In c b) ->
   exists q, App.similarity_pct a b = Return q /\ (q == 0)%Q).
Proof.
  split; [| split; [| split; [| split]]].
  - unfold App.similarity_pct.
    replace (App.char_set b ∩ App.char_set a)
      with (App.char_set a ∩ App.char_set b) by apply intersection_comm_L.
    now rewrite (Nat.max_comm (size (App.char_set b))).
  - apply similarity_pct_sets; [| reflexivity].
    rewrite char_set_app. apply union_idemp_L.
  - apply similarity_pct_sets; [apply char_set_rev | reflexivity].
  - intros Ha. pose proof (char_set_nonempty a Ha) as Hn.
    eexists. split; [apply similarity_pct_value |].
    replace (App.char_set a ∩ App.char_set a) with (App.char_set a)
      by (symmetry; apply intersection_idemp_L).
    replace (Nat.max (Nat.max (size (App.char_set a)) (size (App.char_set a))) 1)
      with (size (App.char_set a)) by lia.
    unfold Qdiv. rewrite Qmult_inv_r; [reflexivity |].
    intros E. pose proof (inject_nat_pos _ Hn) as P. rewrite E in P.
    discriminate P.
  - intros Hdisj. eexists. split; [apply similarity_pct_value |].
    replace (App.char_set a ∩ App.char_set b) with (∅ : gset char).
    + rewrite size_empty. reflexivity.
    + symmetry. apply set_eq. intros c. unfold App.char_set.
      rewrite elem_of_intersection, !elem_of_list_to_set, !list_elem_of_In.
      split; [intros [Hc1 Hc2]; destruct (Hdisj c Hc1 Hc2) | set_solver].
Qed.

Lemma X16_witness :
  exists q, App.similarity_pct (lit "列車進站") (lit "列車進站") = Return q /\ (q == 100)%Q.
Proof.
  destruct (X16_similarity_laws (lit "列車進站") (lit "列車進站"))
    as (_ & _ & _ & H & _).
  apply H. closed.
Defined.

(** ** The three modes *)

Lemma mode_flags :
  (App.use_stt App.STT_ONLY = true /\ App.use_gemini App.STT_ONLY = false) /\
  (App.use_stt App.GEMINI_ONLY = false /\ App.use_gemini App.GEMINI_ONLY = true).
Proof. repeat split; closed. Qed.

(** X17. The mode's label decides which backends run: in the mode for the
    recognizer alone the loop leaves the list of the generative backend
    empty and gives one recognizer record per upload that got past the
    loop's [try], in the mode for the generative backend alone it is the
    other way round.  When those uploads lie within the calendar and
    [format_duration] accepts their total duration, the archive is built
    in either mode and holds no comparison report. *)
Theorem X17_single_backend_modes
    (chunk_duration : Z) (uploaded_files : list App.UploadedFile) :
  let stt_only := App.process_files App.STT_ONLY chunk_duration uploaded_files in
  let gemini_only := App.process_files App.GEMINI_ONLY chunk_duration uploaded_files in
  (App.stt_records stt_only
   = List.map (stt_entry chunk_duration) (List.filter readable uploaded_files) /\
   App.gemini_records stt_only = []) /\
  (App.stt_records gemini_only = [] /\
   App.gemini_records gemini_only
   = List.map gemini_entry (List.filter readable uploaded_files)) /\
  (Forall on_calendar (List.filter readable uploaded_files) ->
   formattable (App.sum_durations
                  (List.map gemini_entry (List.filter readable uploaded_files)))
   = true ->
   (exists entries,
      App.archive App.STT_ONLY (App.stt_records stt_only)
                  (App.gemini_records stt_only) = Return entries /\
      has_report entries = false) /\
   (exists entries,
      App.archive App.GEMINI_ONLY (App.stt_records gemini_only)
                  (App.gemini_records gemini_only) = Return entries /\
      has_report entries = false)).
Proof.
  intros stt_only gemini_only.
  destruct mode_flags as ((S1 & S2) & (G1 & G2)).
  destruct (process_files_records App.STT_ONLY chunk_duration uploaded_files)
    as (Hs & Hg & _).
  destruct (process_files_records App.GEMINI_ONLY chunk_duration uploaded_files)
    as (Hs' & Hg' & _).
  fold stt_only in Hs, Hg. fold gemini_only in Hs', Hg'.
  rewrite S1 in Hs. rewrite S2 in Hg. rewrite G1 in Hs'. rewrite G2 in Hg'.
  split; [split; assumption |]. split; [split; assumption |].
  intros W F. split.
  - destruct (loop_records_within_calendar App.STT_ONLY chunk_duration
                uploaded_files W F) as ((Ws & Fs) & (Wg & Fg)).
    destruct (archive_total App.STT_ONLY (App.stt_records stt_only)
                (App.gemini_records stt_only)) as (entries & E & Hr & _);
      try assumption.
    + rewrite S1, S2. discriminate.
    + exists entries. split; [exact E |]. rewrite Hr, S1, S2. reflexivity.
  - destruct (loop_records_within_calendar App.GEMINI_ONLY chunk_duration
                uploaded_files W F) as ((Ws & Fs) & (Wg & Fg)).
    destruct (archive_total App.GEMINI_ONLY (App.stt_records gemini_only)
                (App.gemini_records gemini_only)) as (entries & E & Hr & _);
      try assumption.
    + rewrite G1, G2. discriminate.
    + exists entries. split; [exact E |]. rewrite Hr, G1, G2. reflexivity.
Qed.

Lemma X17_witness :
  exists entries,
    App.archive App.STT_ONLY
      (App.stt_records
         (App.process_files App.STT_ONLY 50 [Demo.upload_a; Demo.upload_bad]))
      (App.gemini_records
         (App.process_files App.STT_ONLY 50 [Demo.upload_a; Demo.upload_bad]))
    = Return entries /\
    has_report entries = false.
Proof.
  destruct (X17_single_backend_modes 50 [Demo.upload_a; Demo.upload_bad])
    as (_ & _ & H).
  assert (E : List.filter readable [Demo.upload_a; Demo.upload_bad]
              = [Demo.upload_a]) by closed.
  destruct H as (H & _); [| closed | exact H].
  rewrite E. apply Forall_cons_2; [| apply Forall_nil_2].
  split; [closed | split; closed].
Defined.

(** ** The documents of the alternate variant *)

Section AltDocuments.

Lemma alt_blocks_nth (records : list record) :
  forall i r,
    nth_error records i = Some r ->
    nth_error
      (flat_map (fun record =>
                   [App.Plain (lit "[" ++ filename record ++ lit "]");
                    App.Plain (transcript record);
                    App.Plain (App.rule "-" 30 ++ nl)]) records)
      (3 * i + 1)
    = Some (App.Plain (transcript r)).
Proof.
  induction records as [| x rest IH]; intros i r Hi.
  - destruct i; discriminate Hi.
  - destruct i as [| i].
    + injection Hi as ->. reflexivity.
    + cbn [nth_error] in Hi. cbn [flat_map app].
      replace (3 * S i + 1)%nat with (S (S (S (3 * i + 1)))) by lia.
      cbn [nth_error]. now apply IH.
Qed.

Lemma alt_blocks_length (records : list record) :
  List.length
    (flat_map (fun record =>
                 [App.Plain (lit "[" ++ filename record ++ lit "]");
                  App.Plain (transcript record);
                  App.Plain (App.rule "-" 30 ++ nl)]) records)
  = (3 * List.length records)%nat.
Proof.
  induction records as [| x rest IH]; [reflexivity |].
  cbn [flat_map app List.length]. rewrite IH. lia.
Qed.

Lemma alt_report_pairs_length (stt_records gemini_records : list record) :
  List.length (AppAlt.report_pairs stt_records gemini_records)
  = (4 * Nat.min (List.length stt_records) (List.length gemini_records))%nat.
Proof.
  revert gemini_records.
  induction stt_records as [| s rest IH]; intros [| g gs];
    cbn [AppAlt.report_pairs app List.length Nat.min]; rewrite ?IH; lia.
Qed.

End AltDocuments.

(** X18. In the alternate variant the merged document has three title
    lines and then three lines per record, in the order of the list it
    was given, with each record's transcript as one line unchanged; the
    comparison report has two title lines and four lines per pair, pairs
    being formed by index up to the end of the shorter list, so that
    without records it consists of the two title lines alone. *)
Theorem X18_alternate_documents
    (records stt_records gemini_records : list record) :
  List.length (AppAlt.generate_merged_content records)
  = (3 + 3 * List.length records)%nat /\
  (forall i r,
     nth_error records i = Some r ->
     nth_error (AppAlt.generate_merged_content records) (3 + (3 * i + 1))
     = Some (App.Plain (transcript r))) /\
  List.length (AppAlt.generate_comparison_report stt_records gemini_records)
  = (2 + 4 * Nat.min (List.length stt_records) (List.length gemini_records))%nat /\
  AppAlt.generate_comparison_report [] gemini_records
  = [App.Plain (lit "STT vs Gemini 比較報告"); App.Plain (App.rule "=" 40)].
Proof.
  split; [| split; [| split]].
  - unfold AppAlt.generate_merged_content.
    rewrite length_app, alt_blocks_length. reflexivity.
  - intros i r Hi. unfold AppAlt.generate_merged_content.
    cbn [app nth_error Nat.add]. now apply alt_blocks_nth.
  - unfold AppAlt.generate_comparison_report.
    rewrite length_app, alt_report_pairs_length. reflexivity.
  - reflexivity.
Qed.

Lemma X18_witness :
  nth_error (AppAlt.generate_merged_content [Demo.stt_a; Demo.stt_b]) (3 + (3 * 1 + 1))
  = Some (App.Plain (transcript Demo.stt_b)).
Proof.
  destruct (X18_alternate_documents [Demo.stt_a; Demo.stt_b] [] []) as (_ & H & _).
  apply (H 1%nat Demo.stt_b). reflexivity.
Defined.

(** ** The upload loop of the alternate variant *)

Section AltLoop.
Variables (mode : str) (chunk_duration : Z).

Lemma alt_process_from (uploaded_files : list App.UploadedFile) :
  Forall (fun u => exits u = true) uploaded_files ->
  forall st, exists st',
    AppAlt.process_from mode chunk_duration st uploaded_files = Return st' /\
    App.stt_records st'
    = App.stt_records st
      ++ (if App.use_stt mode
          then List.map (alt_stt_entry chunk_duration)
                        (List.filter converted uploaded_files)
          else []) /\
    App.gemini_records st'
    = App.gemini_records st
      ++ (if App.use_gemini mode
          then List.map alt_gemini_entry (List.filter converted uploaded_files)
          else []) /\
    App.errors st'
    = App.errors st
      ++ List.map AppAlt.conversion_failed
           (List.filter (fun u => negb (converted u)) uploaded_files).
Proof.
  induction 1 as [| u rest Hu _ IH]; intros st.
  - exists st. cbn [AppAlt.process_from List.filter List.map].
    destruct (App.use_stt mode), (App.use_gemini mode);
      rewrite !app_nil_r; auto.
  - unfold exits in Hu.
    destruct (App.ffmpeg (App.world u) WAV) as [returncode stderr | | msg] eqn:F;
      try discriminate Hu.
    assert (C : converted u = (returncode =? 0))
      by (unfold converted; now rewrite F).
    cbn [AppAlt.process_from List.filter]. rewrite !C.
    unfold AppAlt.process_file. rewrite F.
    destruct (returncode =? 0); cbn [negb]; rewrite bind_Return.
    + match goal with
      | |- context [AppAlt.process_from _ _ ?s rest] =>
        destruct (IH s) as (st' & E & Hs & Hg & He)
      end.
      exists st'. split; [exact E |].
      rewrite Hs, Hg, He. cbn [App.stt_records App.gemini_records App.errors].
      cbn [List.map].
      destruct (App.use_stt mode), (App.use_gemini mode);
        rewrite <- ?app_assoc; auto.
    + match goal with
      | |- context [AppAlt.process_from _ _ ?s rest] =>
        destruct (IH s) as (st' & E & Hs & Hg & He)
      end.
      exists st'. split; [exact E |].
      rewrite Hs, Hg, He. cbn [App.stt_records App.gemini_records App.errors].
      cbn [List.map]. rewrite <- ?app_assoc. auto.
Qed.

Lemma alt_process_from_app (pre post : list App.UploadedFile) :
  forall st,
    AppAlt.process_from mode chunk_duration st (pre ++ post)
    = (AppAlt.process_from mode chunk_duration st pre
       ≫= fun st' => AppAlt.process_from mode chunk_duration st' post).
Proof.
  induction pre as [| u rest IH]; intros st; [reflexivity |].
  cbn [app AppAlt.process_from].
  destruct (AppAlt.process_file mode chunk_duration st u) as [st1 | e].
  - rewrite !bind_Return. apply IH.
  - now rewrite !bind_Raise.
Qed.

End AltLoop.

Lemma alt_aligned_entries (chunk_duration : Z) (us : list App.UploadedFile) :
  Forall2 aligned (List.map (alt_stt_entry chunk_duration) us)
                  (List.map alt_gemini_entry us).
Proof.
  induction us as [| u us IH]; [apply Forall2_nil_2 |].
  apply Forall2_cons_2; [| exact IH].
  split; [reflexivity |]. split; [reflexivity | apply Qeq_refl].
Qed.

(** X19. In the alternate variant, when ffmpeg runs to its end on every
    upload, the loop ends normally: each upload converted with exit code 0
    has exactly one record per enabled backend, in upload order, and each
    other upload has an error message and no record; when both backends
    are enabled the two lists are index-aligned. *)
Theorem X19_alternate_loop_records
    (mode : str) (chunk_duration : Z) (uploaded_files : list App.UploadedFile) :
  Forall (fun u => exits u = true) uploaded_files ->
  exists st,
    AppAlt.process_files mode chunk_duration uploaded_files = Return st /\
    App.stt_records st
    = (if App.use_stt mode
       then List.map (alt_stt_entry chunk_duration)
                     (List.filter converted uploaded_files)
       else []) /\
    App.gemini_records st
    = (if App.use_gemini mode
       then List.map alt_gemini_entry (List.filter converted uploaded_files)
       else []) /\
    App.errors st
    = List.map AppAlt.conversion_failed
        (List.filter (fun u => negb (converted u)) uploaded_files) /\
    (App.use_stt mode = true -> App.use_gemini mode = true ->
     Forall2 aligned (App.stt_records st) (App.gemini_records st)).
Proof.
  intros H. unfold AppAlt.process_files.
  destruct (alt_process_from mode chunk_duration uploaded_files H App.initial)
    as (st & E & Hs & Hg & He).
  cbn [App.initial App.stt_records App.gemini_records App.errors app] in Hs, Hg, He.
  exists st. split; [exact E |]. split; [exact Hs |].
  split; [exact Hg |]. split; [exact He |].
  intros Fs Fg. rewrite Hs, Hg, Fs, Fg. apply alt_aligned_entries.
Qed.

Lemma X19_witness :
  exists st,
    AppAlt.process_files App.DUAL 50 [Demo.upload_a; Demo.upload_e] = Return st /\
    App.stt_records st
    = (if App.use_stt App.DUAL
       then List.map (alt_stt_entry 50)
                     (List.filter converted [Demo.upload_a; Demo.upload_e])
       else []) /\
    App.gemini_records st
    = (if App.use_gemini App.DUAL
       then List.map alt_gemini_entry
                     (List.filter converted [Demo.upload_a; Demo.upload_e])
       else []) /\
    App.errors st
    = List.map AppAlt.conversion_failed
        (List.filter (fun u => negb (converted u))
                     [Demo.upload_a; Demo.upload_e]) /\
    (App.use_stt App.DUAL = true -> App.use_gemini App.DUAL = true ->
     Forall2 aligned (App.stt_records st) (App.gemini_records st)).
Proof.
  apply (X19_alternate_loop_records App.DUAL 50 [Demo.upload_a; Demo.upload_e]).
  apply Forall_cons_2; [closed |]. apply Forall_cons_2; [closed |].
  apply Forall_nil_2.
Defined.

(** X20. In the alternate variant an ffmpeg run that does not come to an
    end (the program cannot be started, say) is not caught by the loop:
    the whole run ends with that exception at the first such upload,
    whatever came before and whatever follows. *)
Theorem X20_alternate_loop_aborts
    (mode : str) (chunk_duration : Z)
    (before after : list App.UploadedFile) (u : App.UploadedFile) (msg : str) :
  Forall (fun u' => exits u' = true) before ->
  App.ffmpeg (App.world u) WAV = App.Crashed msg ->
  AppAlt.process_files mode chunk_duration (before ++ u :: after) = Raise msg.
Proof.
  intros Hb Hu. unfold AppAlt.process_files.
  rewrite alt_process_from_app.
  destruct (alt_process_from mode chunk_duration before Hb App.initial)
    as (st & -> & _).
  rewrite bind_Return. cbn [AppAlt.process_from].
  unfold AppAlt.process_file. rewrite Hu. apply bind_Raise.
Qed.

Lemma X20_witness :
  AppAlt.process_files App.DUAL 50 ([Demo.upload_a] ++ Demo.upload_d :: [Demo.upload_c])
  = Raise (lit "No such file or directory: 'ffmpeg'").
Proof.
  apply (X20_alternate_loop_aborts App.DUAL 50 [Demo.upload_a] [Demo.upload_c]
           Demo.upload_d).
  - apply Forall_cons_2; [closed | apply Forall_nil_2].
  - closed.
Defined.

(** ** Accounting for the uploads *)

Lemma filter_partition_length {A : Type} (f : A -> bool) (l : list A) :
  (List.length (List.filter f l)
   + List.length (List.filter (fun x => negb (f x)) l))%nat
  = List.length l.
Proof.
  induction l as [| x l IH]; [reflexivity |].
  cbn [List.filter]. destruct (f x); cbn [negb List.length]; lia.
Qed.

Lemma alt_return_exits (mode : str) (chunk_duration : Z)
    (uploaded_files : list App.UploadedFile) :
  forall st0 st',
    AppAlt.process_from mode chunk_duration st0 uploaded_files = Return st' ->
    Forall (fun u => exits u = true) uploaded_files.
Proof.
  induction uploaded_files as [| u rest IH]; intros st0 st' E;
    [apply Forall_nil_2 |].
  cbn [AppAlt.process_from] in E.
  destruct (AppAlt.process_file mode chunk_duration st0 u) as [st1 | e] eqn:P;
    [rewrite bind_Return in E | rewrite bind_Raise in E; discriminate E].
  apply Forall_cons_2; [| exact (IH st1 st' E)].
  unfold AppAlt.process_file in P. unfold exits.
  destruct (App.ffmpeg (App.world u) WAV); [reflexivity | |];
    discriminate P.
Qed.

(** X21. Every upload is accounted for exactly once by each enabled
    backend: the number of its records plus the number of error messages
    of the loop is the number of uploads.  The same holds in the alternate
    variant whenever its loop ends normally. *)
Theorem X21_every_upload_accounted_for
    (mode : str) (chunk_duration : Z) (uploaded_files : list App.UploadedFile) :
  let st := App.process_files mode chunk_duration uploaded_files in
  (App.use_stt mode = true ->
   (List.length (App.stt_records st) + List.length (App.errors st))%nat
   = List.length uploaded_files) /\
  (App.use_gemini mode = true ->
   (List.length (App.gemini_records st) + List.length (App.errors st))%nat
   = List.length uploaded_files) /\
  (forall st',
     AppAlt.process_files mode chunk_duration uploaded_files = Return st' ->
     (App.use_stt mode = true ->
      (List.length (App.stt_records st') + List.length (App.errors st'))%nat
      = List.length uploaded_files) /\
     (App.use_gemini mode = true ->
      (List.length (App.gemini_records st') + List.length (App.errors st'))%nat
      = List.length uploaded_files)).
Proof.
  intros st.
  destruct (process_files_records mode chunk_duration uploaded_files)
    as (Hs & Hg & He).
  fold st in Hs, Hg, He.
  split; [| split].
  - intros F. rewrite Hs, He, F, !length_map. apply filter_partition_length.
  - intros F. rewrite Hg, He, F, !length_map. apply filter_partition_length.
  - intros st' E.
    pose proof (alt_return_exits mode chunk_duration uploaded_files
                  App.initial st' E) as Hx.
    destruct (alt_process_from mode chunk_duration uploaded_files Hx App.initial)
      as (st2 & E2 & Hs2 & Hg2 & He2).
    unfold AppAlt.process_files in E. rewrite E in E2. injection E2 as <-.
    cbn [App.initial App.stt_records App.gemini_records App.errors app]
      in Hs2, Hg2, He2.
    split; intros F.
    + rewrite Hs2, He2, F, !length_map. apply filter_partition_length.
    + rewrite Hg2, He2, F, !length_map. apply filter_partition_length.
Qed.

Lemma X21_witness :
  (List.length
     (App.stt_records
        (App.process_files App.DUAL 50 [Demo.upload_a; Demo.upload_bad]))
   + List.length
       (App.errors
          (App.process_files App.DUAL 50 [Demo.upload_a; Demo.upload_bad])))%nat
  = List.length [Demo.upload_a; Demo.upload_bad].
Proof.
  destruct (X21_every_upload_accounted_for
              App.DUAL 50 [Demo.upload_a; Demo.upload_bad]) as (H & _).
  apply H. closed.
Defined.



(** X23. The recognizer works on the converted file exactly when the
    quality check asked for a conversion (the first stream is ADPCM or has
    a sample rate under 16000 Hz) and ffmpeg exited with code 0; in every
    other case it works on the upload itself. *)
Theorem X23_recognizer_working_file (w : App.World) :
  (App.stt_working_path w = Converted WAV <->
   (exists audio_stream streams,
      App.ffprobe_streams w = Return (audio_stream :: streams) /\
      (str_eqb (App.codec_name audio_stream) (lit "adpcm_ima_wav") = true \/
       App.sample_rate audio_stream < 16000)) /\
   exists stderr, App.ffmpeg w WAV = App.Exited 0 stderr) /\
  (App.stt_working_path w = Uploaded \/ App.stt_working_path w = Converted WAV).
Proof.
  unfold App.stt_working_path, App.check_audio_quality,
    App.convert_audio_to_standard_format.
  destruct (App.ffprobe_streams w) as [[| audio_stream streams] | e];
    cbv zeta; cbn [App.is_true].
  - split; [| now left].
    split; [discriminate | intros ((s & ss & H & _) & _); discriminate H].
  - destruct (str_eqb (App.codec_name audio_stream) (lit "adpcm_ima_wav")) eqn:C;
      destruct (App.sample_rate audio_stream <? 16000) eqn:R;
      cbn [orb App.is_true];
      try (destruct (App.ffmpeg w WAV) as [returncode stderr | | msg] eqn:F;
           [destruct (returncode =? 0) eqn:Z0 | |]);
      (split; [| first [now left | now right]]);
      (split;
       [ first
           [ discriminate
           | intros _; apply Z.eqb_eq in Z0; subst returncode;
             split; [exists audio_stream, streams; split; [reflexivity |];
                     first [now left | right; now apply Z.ltb_lt]
                    | now exists stderr] ]
       | first
           [ reflexivity
           | intros (_ & err & H); injection H as H _;
             apply Z.eqb_neq in Z0; contradiction
           | intros (_ & err & H); discriminate H
           | intros ((s & ss & H & [Hc | Hr]) & _); injection H as <- _;
             [congruence | apply Z.ltb_ge in R; lia] ] ]).
  - split; [| now left].
    split; [discriminate | intros ((s & ss & H & _) & _); discriminate H].
Qed.

Lemma X23_witness :
  (exists audio_stream streams,
     App.ffprobe_streams Demo.short_rate8k = Return (audio_stream :: streams) /\
     (str_eqb (App.codec_name audio_stream) (lit "adpcm_ima_wav") = true \/
      App.sample_rate audio_stream < 16000)) /\
  exists stderr, App.ffmpeg Demo.short_rate8k WAV = App.Exited 0 stderr.
Proof.
  destruct (X23_recognizer_working_file Demo.short_rate8k) as ((H & _) & _).
  apply H. closed.
Defined.

(** ** Failed files in the merged document *)

(** X24. A record whose transcript starts with '[' (an error text, a
    marker or the sentinel) appears in the merged document as exactly one
    utterance: it carries the whole transcript, the record's own date as
    timestamp, and the speaker label that is due, and the label is
    switched for the next utterance as after any other.  This holds for
    every record whose date is a [datetime] and whose duration
    [format_duration] accepts, as the footer of the record prints it. *)
Theorem X24_bracketed_transcript_is_one_utterance (r : record) (toggle : bool) :
  startswith (lit "[") (transcript r) = true ->
  datetime_min <= datetime r <= datetime_max ->
  formattable (duration_sec r) = true ->
  exists ls,
    App.emit_record r toggle = Return (ls, negb toggle) /\
    timestamps ls = [datetime r] /\
    speakers ls = [App.speaker toggle] /\
    hd_error ls
    = Some (App.Utterance (datetime r) (App.speaker toggle) (transcript r)).
Proof.
  intros B D F.
  assert (S : App.split_dialogues (transcript r) = [transcript r]).
  { unfold App.split_dialogues. now rewrite B. }
  destruct (formattable_Return _ F) as (text & E).
  unfold App.emit_record. rewrite S.
  change (inject_Z (Z.of_nat (Nat.max (List.length [transcript r]) 1)))
    with 1%Q.
  rewrite truediv_pos by reflexivity. rewrite bind_Return.
  cbn [App.emit_dialogues].
  replace (py_int (inject_Z (Z.of_nat 0) * (duration_sec r / 1))) with 0
    by reflexivity.
  rewrite (timedelta_Return 0) by lia. rewrite bind_Return.
  rewrite (datetime_add_Return (datetime r) 0) by lia.
  rewrite !bind_Return. cbv beta iota. rewrite E, bind_Return.
  rewrite Z.add_0_r.
  eexists. split; [reflexivity |]. repeat split.
Qed.

Lemma X24_witness :
  exists ls,
    App.emit_record Demo.stt_b true = Return (ls, negb true) /\
    timestamps ls = [datetime Demo.stt_b] /\
    speakers ls = [App.speaker true] /\
    hd_error ls
    = Some (App.Utterance (datetime Demo.stt_b) (App.speaker true)
                          (transcript Demo.stt_b)).
Proof.
  apply (X24_bracketed_transcript_is_one_utterance Demo.stt_b true).
  - closed.
  - split; closed.
  - closed.
Defined.

(** X25. The generative path of the alternate variant returns one of
    three things: a bracketed error text that the heuristic of the full
    variant's report would count as a failure (this includes the case of
    a missing response object), the sentinel, or the model's non-empty
    answer with the white space at both ends removed. *)
Theorem X25_alternate_gemini_result_cases (w : App.World) (audio_path : path) :
  App.is_error (AppAlt.transcribe_gemini w audio_path) = true \/
  AppAlt.transcribe_gemini w audio_path = NO_CONTENT \/
  exists text,
    App.generate_content w audio_path = Return (Some text) /\
    truthy text = true /\
    AppAlt.transcribe_gemini w audio_path = strip text.
Proof.
  assert (Herr : forall e,
             App.is_error (if contains (lit "400") e
                           then lit "[Gemini 錯誤: 格式不支援或檔案損毀]"
                           else lit "[Gemini 錯誤: " ++ prefix 100 e ++ lit "]")
             = true).
  { intros e. destruct (contains (lit "400") e);
      [closed | apply is_error_app; closed]. }
  unfold AppAlt.transcribe_gemini.
  destruct (App.genai_model w) as [u | e];
    [rewrite bind_Return | rewrite bind_Raise; left; apply Herr].
  destruct (App.getsize w audio_path) as [file_size | e];
    [rewrite bind_Return | rewrite bind_Raise; left; apply Herr].
  destruct (App.generate_content w audio_path) as [[text |] | e];
    [rewrite bind_Return | rewrite bind_Return; left; apply Herr
     | rewrite bind_Raise; left; apply Herr].
  destruct text as [| c text].
  - right; left. reflexivity.
  - right; right. exists (c :: text). repeat split.
Qed.
